(** * The Altair example gallery (altair/sphinxext/altairgallery.py)

    A shallow embedding of [save_example_pngs], [populate_examples] and the
    page loop of [main], with the library routines they call (MD5, posix
    path joining, [str.title], [sorted], Jinja's [groupby]) written out, and
    the outside world (file system, example execution, chart export,
    thumbnailing) made explicit. *)

From Stdlib Require Import ZArith Ascii String List Lia Permutation.
From stdpp Require Import gmap strings list fin_maps sorting.

Local Open Scope Z_scope.

(** ** hashlib.md5 (RFC 1321) *)

Module MD5.

(** 32-bit words are [Z] values kept in [0, 2^32). *)
Definition w32 (x : Z) : Z := x mod 2 ^ 32.

Definition add32 (x y : Z) : Z := w32 (x + y).

Definition not32 (x : Z) : Z := 2 ^ 32 - 1 - x.

Definition rotl32 (x c : Z) : Z :=
  w32 (Z.lor (Z.shiftl x c) (Z.shiftr x (32 - c))).

Definition K : list Z :=
  [ 0xd76aa478; 0xe8c7b756; 0x242070db; 0xc1bdceee;
    0xf57c0faf; 0x4787c62a; 0xa8304613; 0xfd469501;
    0x698098d8; 0x8b44f7af; 0xffff5bb1; 0x895cd7be;
    0x6b901122; 0xfd987193; 0xa679438e; 0x49b40821;
    0xf61e2562; 0xc040b340; 0x265e5a51; 0xe9b6c7aa;
    0xd62f105d; 0x02441453; 0xd8a1e681; 0xe7d3fbc8;
    0x21e1cde6; 0xc33707d6; 0xf4d50d87; 0x455a14ed;
    0xa9e3e905; 0xfcefa3f8; 0x676f02d9; 0x8d2a4c8a;
    0xfffa3942; 0x8771f681; 0x6d9d6122; 0xfde5380c;
    0xa4beea44; 0x4bdecfa9; 0xf6bb4b60; 0xbebfbc70;
    0x289b7ec6; 0xeaa127fa; 0xd4ef3085; 0x04881d05;
    0xd9d4d039; 0xe6db99e5; 0x1fa27cf8; 0xc4ac5665;
    0xf4292244; 0x432aff97; 0xab9423a7; 0xfc93a039;
    0x655b59c3; 0x8f0ccc92; 0xffeff47d; 0x85845dd1;
    0x6fa87e4f; 0xfe2ce6e0; 0xa3014314; 0x4e0811a1;
    0xf7537e82; 0xbd3af235; 0x2ad7d2bb; 0xeb86d391 ].

Definition S : list Z :=
  [ 7; 12; 17; 22; 7; 12; 17; 22; 7; 12; 17; 22; 7; 12; 17; 22;
    5;  9; 14; 20; 5;  9; 14; 20; 5;  9; 14; 20; 5;  9; 14; 20;
    4; 11; 16; 23; 4; 11; 16; 23; 4; 11; 16; 23; 4; 11; 16; 23;
    6; 10; 15; 21; 6; 10; 15; 21; 6; 10; 15; 21; 6; 10; 15; 21 ].

Definition nthZ (l : list Z) (i : Z) : Z := nth (Z.to_nat i) l 0.

(** The message as bytes: [str.encode()] of a text held as its UTF-8
    bytes. *)
Fixpoint bytes_of (s : string) : list Z :=
  match s with
  | EmptyString => []
  | String c r => Z.of_N (N_of_ascii c) :: bytes_of r
  end.

Fixpoint le_bytes (n : nat) (x : Z) : list Z :=
  match n with
  | O => []
  | Datatypes.S m => x mod 256 :: le_bytes m (x / 256)
  end.

Fixpoint le_word (bs : list Z) : Z :=
  match bs with
  | [] => 0
  | b :: r => b + 256 * le_word r
  end.

(** Padding: a 1 bit, zeros up to 56 mod 64, the bit length on 8 bytes. *)
Definition pad (msg : list Z) : list Z :=
  let n := Z.of_nat (length msg) in
  let zeros := (55 - n) mod 64 in
  msg ++ [128] ++ repeat 0 (Z.to_nat zeros)
      ++ le_bytes 8 ((8 * n) mod 2 ^ 64).

Fixpoint words (n : nat) (bs : list Z) : list Z :=
  match n with
  | O => []
  | Datatypes.S m => le_word (firstn 4 bs) :: words m (skipn 4 bs)
  end.

Fixpoint blocks (n : nat) (bs : list Z) : list (list Z) :=
  match n with
  | O => []
  | Datatypes.S m => words 16 (firstn 64 bs) :: blocks m (skipn 64 bs)
  end.

Definition regs : Type := Z * Z * Z * Z.

Definition round (M : list Z) (st : regs) (i : Z) : regs :=
  let '(a, b, c, d) := st in
  let '(f, g) :=
    if i <? 16 then (Z.lor (Z.land b c) (Z.land (not32 b) d), i)
    else if i <? 32 then
      (Z.lor (Z.land d b) (Z.land (not32 d) c), (5 * i + 1) mod 16)
    else if i <? 48 then (Z.lxor b (Z.lxor c d), (3 * i + 5) mod 16)
    else (Z.lxor c (Z.lor b (not32 d)), (7 * i) mod 16) in
  let f' := add32 (add32 (add32 f a) (nthZ K i)) (nthZ M g) in
  (d, add32 b (rotl32 f' (nthZ S i)), b, c).

Definition compress (st : regs) (M : list Z) : regs :=
  let '(a0, b0, c0, d0) := st in
  let '(a, b, c, d) := fold_left (round M) (map Z.of_nat (seq 0 64)) st in
  (add32 a0 a, add32 b0 b, add32 c0 c, add32 d0 d).

Definition init : regs := (0x67452301, 0xefcdab89, 0x98badcfe, 0x10325476).

Definition digest (msg : list Z) : list Z :=
  let p := pad msg in
  let '(a, b, c, d) :=
    fold_left compress (blocks (length p / 64)%nat p) init in
  le_bytes 4 a ++ le_bytes 4 b ++ le_bytes 4 c ++ le_bytes 4 d.

Definition hex_digit (n : Z) : ascii :=
  nth (Z.to_nat n)
      (list_ascii_of_string "0123456789abcdef") "0"%char.

Fixpoint hex (bs : list Z) : string :=
  match bs with
  | [] => EmptyString
  | b :: r => String (hex_digit (b / 16)) (String (hex_digit (b mod 16)) (hex r))
  end.

(** [hashlib.md5(text.encode()).hexdigest()] *)
Definition hexdigest (text : string) : string := hex (digest (bytes_of text)).

End MD5.

Local Open Scope string_scope.
Local Open Scope list_scope.

(** ** os.path.join (posixpath) for two components *)

Definition starts_with_sep (p : string) : bool :=
  match p with
  | String c _ => Ascii.eqb c "/"
  | EmptyString => false
  end.

Fixpoint ends_with_sep (p : string) : bool :=
  match p with
  | EmptyString => false
  | String c EmptyString => Ascii.eqb c "/"
  | String _ r => ends_with_sep r
  end.

Definition path_join (a b : string) : string :=
  if starts_with_sep b then b
  else if String.eqb a "" || ends_with_sep a then a +:+ b
  else a +:+ "/" +:+ b.

(** ** The data model *)

(** Keyword arguments handed to the thumbnail routine. *)
Inductive pyvalue :=
| PInt (z : Z)
| PStr (s : string)
| PPair (a b : pyvalue).

Abbreviation kwargs := (gmap string pyvalue).

(** An example dict; the optional keys are options. *)
Record Example := mkExample {
  name : string;
  filename : string;
  docstring : string;
  category : string;
  code : string;
  lineno : Z;
  galleryParameters : option kwargs;
  gallery_ref : string;
  code_below : bool;
  prev_ref : option string;
  next_ref : option string
}.

(** What a file holds.  [Json h] is a text that [json.load] decodes into
    the dict [h] (what [json.dump] writes for [h]); [Blob b] is the bytes
    [b] of any data that is not JSON text: a PNG, or a damaged or
    truncated cache file.  JSON text of another shape than an object of
    strings (which [json.load] would return, to fail or not at the first
    [hashes.get]) is not represented: the hash file is taken to be one
    that [json.dump] wrote for a table, or not to be JSON at all. *)
Inductive content :=
| Json (h : gmap string string)
| Blob (b : string).

Record state := mkState {
  files : gmap string content;   (* regular files, by path *)
  dirs : gset string;            (* directories, by path *)
  hashes : gmap string string    (* the local dict [hashes] *)
}.

Inductive exn :=
| JSONDecodeError
| UnicodeDecodeError
| IsADirectoryError
| NotADirectoryError
| FileNotFoundError
| FileExistsError
| ExampleError        (* raised by exec, the chart lookup or savechart *)
| ThumbnailError.     (* raised by create_thumbnail *)

(** Calls that reach the outside world, recorded when they are made. *)
Inductive event :=
| Makedirs (d : string)
| LoadHashes (p : string)
| Print (msg : string)
| Exec (src : string)
| SaveChart (p : string)
| DumpHashes (p : string) (h : gmap string string)
| CreateThumbnail (image thumb : string) (params : kwargs).

(** ** Statements: state passing with a trace and an exception *)

Record outcome := mkOutcome {
  trace : list event;        (* in the order the calls were made *)
  final : state;
  raised : option exn
}.

Definition step : Type := state -> outcome.

Definition skip : step := fun s => mkOutcome [] s None.
Definition emit (e : event) : step := fun s => mkOutcome [e] s None.
Definition raise (x : exn) : step := fun s => mkOutcome [] s (Some x).

Definition andthen (f g : step) : step := fun s =>
  match f s with
  | mkOutcome t s' None =>
      match g s' with
      | mkOutcome t' s'' r => mkOutcome (t ++ t') s'' r
      end
  | mkOutcome t s' (Some x) => mkOutcome t s' (Some x)
  end.

Infix ">>" := andthen (at level 62, right associativity).

Fixpoint for_each {A : Type} (body : A -> step) (l : list A) : step :=
  match l with
  | [] => skip
  | x :: r => body x >> for_each body r
  end.

(** os.path.exists *)
Definition path_exists (s : state) (p : string) : bool :=
  bool_decide (is_Some (files s !! p)) || bool_decide (p ∈ dirs s).

Definition set_hashes (h : gmap string string) : step := fun s =>
  mkOutcome [] (mkState (files s) (dirs s) h) None.

(** The directories above [p]: the proper prefixes of [p] that end before
    a separator, the root excepted. *)
Fixpoint ancestors (p : string) : list string :=
  match p with
  | EmptyString => []
  | String c r =>
      (if starts_with_sep r then [String c EmptyString] else [])
      ++ map (String c) (ancestors r)
  end.

(** What [os.makedirs(d)] raises: [mkdir] fails on the empty path, below a
    regular file, and on a path that exists. *)
Definition makedirs_error (d : string) (s : state) : option exn :=
  if String.eqb d "" then Some FileNotFoundError
  else if existsb (fun a => bool_decide (is_Some (files s !! a))) (ancestors d)
  then Some NotADirectoryError
  else if path_exists s d then Some FileExistsError
  else None.

(** [os.makedirs(d)]: the directory and the missing directories above it
    are created, or nothing is.  Paths are compared as texts, so [d] is
    taken to be written without empty, [.] or [..] components. *)
Definition makedirs (d : string) : step :=
  emit (Makedirs d) >>
  fun s =>
    match makedirs_error d s with
    | Some x => raise x s
    | None =>
        mkOutcome []
          (mkState (files s) ({[d]} ∪ list_to_set (ancestors d) ∪ dirs s)
             (hashes s))
          None
    end.

(** [with open(p, 'w') as f: f.write(c)].  The one failure written out is
    that of a path that is a directory.  That [open] also fails when the
    directory above [p] is missing or is a regular file is left out: what
    is stated below about a write that took place is to be read for
    states in which that directory exists. *)
Definition write_file (p : string) (c : content) : step := fun s =>
  if bool_decide (p ∈ dirs s) then raise IsADirectoryError s
  else mkOutcome [] (mkState (<[p := c]> (files s)) (dirs s) (hashes s)) None.

(** ** Reading a file as text *)

Definition between (lo hi b : Z) : bool := ((lo <=? b) && (b <=? hi))%Z.

Definition continuation (b : Z) : bool := between 0x80 0xBF b.

(** Whether bytes are well-formed UTF-8 (RFC 3629): no stray continuation
    byte, no overlong form, no surrogate, nothing above U+10FFFF. *)
Fixpoint utf8_valid (bs : list Z) : bool :=
  match bs with
  | [] => true
  | b0 :: r0 =>
      if (b0 <=? 0x7F)%Z then utf8_valid r0
      else if between 0xC2 0xDF b0 then
        match r0 with
        | b1 :: r1 => continuation b1 && utf8_valid r1
        | _ => false
        end
      else if between 0xE0 0xEF b0 then
        match r0 with
        | b1 :: b2 :: r2 =>
            between (if (b0 =? 0xE0)%Z then 0xA0 else 0x80)
                    (if (b0 =? 0xED)%Z then 0x9F else 0xBF) b1
            && continuation b2 && utf8_valid r2
        | _ => false
        end
      else if between 0xF0 0xF4 b0 then
        match r0 with
        | b1 :: b2 :: b3 :: r3 =>
            between (if (b0 =? 0xF0)%Z then 0x90 else 0x80)
                    (if (b0 =? 0xF4)%Z then 0x8F else 0xBF) b1
            && continuation b2 && continuation b3 && utf8_valid r3
        | _ => false
        end
      else false
  end.

(** What [json.load] raises on a file opened in text mode (UTF-8) that
    holds the bytes [b] and is not JSON text: bytes that do not decode
    raise before the parser sees them. *)
Definition decode_error (b : string) : exn :=
  if utf8_valid (MD5.bytes_of b) then JSONDecodeError else UnicodeDecodeError.

(** ** save_example_pngs *)

Section SaveExamplePngs.

(** The collaborators that are not among the sources.  [exec_chart src] stands
    for [exec(src, _globals); _globals['chart']], [savechart c p] for the
    bytes [c.savechart(p)] writes at [p], [create_thumbnail] for the bytes
    the thumbnail routine writes at [thumb] from what it reads at the
    image path; [None] means the call raises.  They are functions: the
    code of an example is taken to compute a chart and to touch no file,
    and an export or a thumbnail call to write its own file and no other.
    What is stated below about files other than the one a call writes
    holds under that reading only; the statements about the calls made,
    and about a file right after the call that writes it, do not lean on
    it. *)
Context {chart : Type}.
Variable exec_chart : string -> option chart.
Variable savechart : chart -> string -> option string.
Variable create_thumbnail : content -> string -> kwargs -> option string.

Definition hash_file_of (image_dir : string) : string :=
  path_join image_dir "_image_hashes.json".

(** Lines 96-100. *)
Definition load_hashes (hash_file : string) : step := fun s =>
  if path_exists s hash_file then
    (emit (LoadHashes hash_file) >>
     fun s' =>
       match files s' !! hash_file with
       | Some (Json h) => set_hashes h s'
       | Some (Blob b) => raise (decode_error b) s'
       | None => raise IsADirectoryError s'
       end) s
  else set_hashes ∅ s.

(** [with open(hash_file, 'w') as f: json.dump(hashes, f)] *)
Definition dump_hashes (hash_file : string) : step := fun s =>
  (emit (DumpHashes hash_file (hashes s)) >>
   write_file hash_file (Json (hashes s))) s.

(** Lines 112-120, the body of the [if]. *)
Definition regenerate (hash_file image_file fname example_hash : string)
    (example : Example) : step :=
  emit (Print ("-> saving " +:+ image_file)) >>
  emit (Exec (code example)) >>
  fun s =>
    match exec_chart (code example) with
    | None => raise ExampleError s
    | Some c =>
        (emit (SaveChart image_file) >>
         (fun s' =>
            match savechart c image_file with
            | None => raise ExampleError s'
            | Some png => write_file image_file (Blob png) s'
            end) >>
         (fun s' => set_hashes (<[fname := example_hash]> (hashes s')) s') >>
         dump_hashes hash_file) s
    end.

(** Lines 122-125, the body of the [if]. *)
Definition make_thumbnail (image_dir image_file : string)
    (example : Example) : step :=
  let params := default ∅ (galleryParameters example) in
  let thumb_file := path_join image_dir (name example +:+ "-thumb.png") in
  emit (CreateThumbnail image_file thumb_file params) >>
  fun s =>
    match files s !! image_file with
    | None => raise FileNotFoundError s
    | Some img =>
        match create_thumbnail img thumb_file params with
        | None => raise ThumbnailError s
        | Some t => write_file thumb_file (Blob t) s
        end
    end.

(** Lines 103-125, the body of the [for]. *)
Definition process_example (image_dir : string) (make_thumbnails : bool)
    (example : Example) : step := fun s =>
  let hash_file := hash_file_of image_dir in
  let fname := name example +:+ ".png" in
  let image_file := path_join image_dir fname in
  let example_hash := MD5.hexdigest (code example) in
  let hashes_match :=
    String.eqb (default "" (hashes s !! fname)) example_hash in
  (emit (Print ("-> using cached " +:+ image_file)) >>
   (fun s' =>
      if negb hashes_match || negb (path_exists s' image_file)
      then regenerate hash_file image_file fname example_hash example s'
      else skip s') >>
   (if make_thumbnails
    then make_thumbnail image_dir image_file example
    else skip)) s.

Definition save_example_pngs (examples : list Example) (image_dir : string)
    (make_thumbnails : bool) : step :=
  let hash_file := hash_file_of image_dir in
  (fun s => if negb (path_exists s image_dir)
            then makedirs image_dir s else skip s) >>
  load_hashes hash_file >>
  for_each (process_example image_dir make_thumbnails) examples >>
  dump_hashes hash_file.

End SaveExamplePngs.

(** A world to run the examples of this file in: the code of an example
    is its own chart, exported as the bytes "PNG:" followed by the code;
    the code "raise" raises. *)
Module Demo.
Definition exec_chart (src : string) : option string :=
  if String.eqb src "raise" then None else Some src.
Definition savechart (c : string) (p : string) : option string :=
  Some ("PNG:" +:+ c).
Definition create_thumbnail (img : content) (thumb : string) (params : kwargs)
  : option string :=
  match img with Blob b => Some ("thumb:" +:+ b) | Json _ => None end.

Definition run := save_example_pngs exec_chart savechart create_thumbnail.
Definition body := process_example exec_chart savechart create_thumbnail.

Definition ex (n c : string) : Example :=
  mkExample n (n +:+ ".py") "" "General" c 1 None "g" true None None.

Definition ex_a : Example := ex "a" "abc".

(** Nothing on disk. *)
Definition empty_world : state := mkState ∅ ∅ ∅.

(** The image directory alone, as the loop finds it on a first build. *)
Definition fresh : state := mkState ∅ {["img"]} ∅.

(** The disk after a build of [ex_a]. *)
Definition built_files : gmap string content :=
  <["img/_image_hashes.json" :=
      Json {["a.png" := "900150983cd24fb0d6963f7d28e17f72"]}]>
    (<["img/a.png" := Blob "PNG:abc"]> ∅).

Definition built : state := mkState built_files {["img"]} ∅.

(** The same disk once the loop has read the hash file. *)
Definition loaded : state :=
  mkState built_files {["img"]} {["a.png" := "900150983cd24fb0d6963f7d28e17f72"]}.

(** A hash file that no longer decodes. *)
Definition corrupt : state :=
  mkState (<["img/_image_hashes.json" := Blob "{"]>
             (<["img/a.png" := Blob "PNG:abc"]> ∅))
          {["img"]} ∅.
End Demo.

(** ** populate_examples *)

(** [str.title] on a text held as bytes: a letter that follows a letter is
    lowered, any other letter is raised.  Only the ASCII letters are
    cased, so this is [str.title] on ASCII texts; on a text with other
    letters, which Python cases too, the value is not Python's. *)
Definition is_upper (c : ascii) : bool :=
  let n := N_of_ascii c in (65 <=? n)%N && (n <=? 90)%N.

Definition is_lower (c : ascii) : bool :=
  let n := N_of_ascii c in (97 <=? n)%N && (n <=? 122)%N.

Definition is_cased (c : ascii) : bool := is_upper c || is_lower c.

Definition to_upper (c : ascii) : ascii :=
  if is_lower c then ascii_of_N (N_of_ascii c - 32) else c.

Definition to_lower (c : ascii) : ascii :=
  if is_upper c then ascii_of_N (N_of_ascii c + 32) else c.

Fixpoint title_from (previous_is_cased : bool) (s : string) : string :=
  match s with
  | EmptyString => EmptyString
  | String c r =>
      String (if previous_is_cased then to_lower c else to_upper c)
             (title_from (is_cased c) r)
  end.

Definition title (s : string) : string := title_from false s.

(** [sorted(l, key=...)] with a text key: a stable sort, written as the
    insertion of each element in front of the first element of the sorted
    rest whose key is not smaller. *)
Fixpoint insert_by {A : Type} (key : A -> string) (x : A) (l : list A)
  : list A :=
  match l with
  | [] => [x]
  | y :: r =>
      if String.leb (key x) (key y) then x :: y :: r
      else y :: insert_by key x r
  end.

Definition sorted_by {A : Type} (key : A -> string) (l : list A) : list A :=
  foldr (insert_by key) [] l.

(** Modelled from the spec: an entry as [iter_examples] of the examples
    package yields it (a name, a source filename, optional gallery
    parameters); the package is not among the sources. *)
Record Entry := mkEntry {
  entry_name : string;
  entry_filename : string;
  entry_parameters : option kwargs
}.

Section PopulateExamples.

(** [get_docstring_and_rest filename] of the extension's [utils] module,
    which is not among the sources: docstring, category, code and line
    number of an example file; [None] when the extraction raises. *)
Variable get_docstring_and_rest :
  string -> option (string * option string * string * Z).

(** Lines 138-146, the body of the [for]; the keywords are the two that
    [main] passes. *)
Definition populate (gallery_ref : string) (code_below : bool) (e : Entry)
  : option Example :=
  match get_docstring_and_rest (entry_filename e) with
  | None => None
  | Some (docstring, category, code, lineno) =>
      let category :=
        match category with
        | None => "general"
        | Some c => c
        end in
      Some (mkExample (entry_name e) (entry_filename e) docstring
              (title category) code lineno (entry_parameters e)
              gallery_ref code_below None None)
  end.

Definition populate_examples (iter_examples : list Entry)
    (gallery_ref : string) (code_below : bool) : option (list Example) :=
  let examples := sorted_by entry_name iter_examples in
  mapM (populate gallery_ref code_below) examples.

End PopulateExamples.

(** ** The gallery index *)

(** Python's [<=] and [<] on texts. *)
Definition str_le (a b : string) : Prop := String.leb a b = true.
Definition str_lt (a b : string) : Prop := String.ltb a b = true.

Definition key_le {A : Type} (key : A -> string) (a b : A) : Prop :=
  str_le (key a) (key b).

Definition has_key {A : Type} (key : A -> string) (k : string) (a : A) : bool :=
  String.eqb (key a) k.

(** [itertools.groupby]: the runs of neighbours with one key. *)
Fixpoint group_runs {A : Type} (key : A -> string) (l : list A)
  : list (string * list A) :=
  match l with
  | [] => []
  | x :: r =>
      match group_runs key r with
      | (k, g) :: gs =>
          if String.eqb (key x) k then (k, x :: g) :: gs
          else (key x, [x]) :: (k, g) :: gs
      | [] => [(key x, [x])]
      end
  end.

(** Jinja's [groupby] filter (2.x, the releases of the time of the
    source): the values are sorted by the attribute, then grouped. *)
Definition groupby {A : Type} (key : A -> string) (l : list A)
  : list (string * list A) :=
  group_runs key (sorted_by key l).

(** The groups the two [for group in examples|groupby('category')] loops
    of GALLERY_TEMPLATE go through, and the headings they print. *)
Definition gallery_groups (examples : list Example)
  : list (string * list Example) :=
  groupby category examples.

Definition index_categories (examples : list Example) : list string :=
  map fst (gallery_groups examples).

(** The order the specification names: each category at the place of its
    first example. *)
Fixpoint first_seen (ks : list string) : list string :=
  match ks with
  | [] => []
  | k :: r => k :: List.filter (fun k' => negb (String.eqb k' k)) (first_seen r)
  end.

(** ** The example pages *)

(** Modelled from the spec: the recursion of [prev_this_next], which
    carries the previous entry along. *)
Fixpoint prev_this_next_from {A : Type} (prev : option A) (l : list A)
  : list (option A * A * option A) :=
  match l with
  | [] => []
  | x :: r => (prev, x, head r) :: prev_this_next_from (Some x) r
  end.

(** Modelled from the spec: [prev_this_next] of the extension's [utils]
    module, which is not among the sources.  It pairs every entry of a
    sequence with its neighbours; the ends have no previous and no next
    entry. *)
Definition prev_this_next {A : Type} (l : list A)
  : list (option A * A * option A) :=
  prev_this_next_from None l.

Definition set_prev_ref (r : string) (e : Example) : Example :=
  mkExample (name e) (filename e) (docstring e) (category e) (code e)
    (lineno e) (galleryParameters e) (gallery_ref e) (code_below e)
    (Some r) (next_ref e).

Definition set_next_ref (r : string) (e : Example) : Example :=
  mkExample (name e) (filename e) (docstring e) (category e) (code e)
    (lineno e) (galleryParameters e) (gallery_ref e) (code_below e)
    (prev_ref e) (Some r).

(** Lines 178-184: the file written for an example and the dict handed to
    EXAMPLE_TEMPLATE.render. *)
Definition example_page (target_dir : string)
    (p : option Example * Example * option Example) : string * Example :=
  let '(prev_ex, example, next_ex) := p in
  let example :=
    match prev_ex with
    | Some e => set_prev_ref ("gallery_" +:+ name e) example
    | None => example
    end in
  let example :=
    match next_ex with
    | Some e => set_next_ref ("gallery_" +:+ name e) example
    | None => example
    end in
  (path_join target_dir (name example +:+ ".rst"), example).

Definition example_pages (target_dir : string) (examples : list Example)
  : list (string * Example) :=
  map (example_page target_dir) (prev_this_next examples).

(** Three example files to run the gallery on. *)
Module DemoGallery.
Definition get_docstring_and_rest (f : string)
  : option (string * option string * string * Z) :=
  if String.eqb f "area.py" then Some ("Area chart", Some "other charts", "abc", 5%Z)
  else if String.eqb f "bar.py" then Some ("Bar chart", Some "bar charts", "xyz", 4%Z)
  else if String.eqb f "misc.py" then Some ("Misc", None, "pqr", 3%Z)
  else None.

Definition iter_examples : list Entry :=
  [ mkEntry "bar_chart" "bar.py" None;
    mkEntry "area_chart" "area.py" None;
    mkEntry "zoo" "misc.py" None ].

Definition area_chart : Example :=
  mkExample "area_chart" "area.py" "Area chart" "Other Charts" "abc" 5 None
    "example-gallery" true None None.
Definition bar_chart : Example :=
  mkExample "bar_chart" "bar.py" "Bar chart" "Bar Charts" "xyz" 4 None
    "example-gallery" true None None.
Definition zoo : Example :=
  mkExample "zoo" "misc.py" "Misc" "General" "pqr" 3 None
    "example-gallery" true None None.

Definition examples : list Example := [area_chart; bar_chart; zoo].
End DemoGallery.

(** ** Names used in the statements *)

(** What [path_join] puts in front of its second component. *)
Definition join_prefix (a b : string) : string :=
  if starts_with_sep b then ""
  else if String.eqb a "" || ends_with_sep a then a
  else a +:+ "/".

Fixpoint last_char (s : string) : option ascii :=
  match s with
  | EmptyString => None
  | String c EmptyString => Some c
  | String _ r => last_char r
  end.

Definition image_file_of (image_dir : string) (example : Example) : string :=
  path_join image_dir (name example +:+ ".png").

Definition thumb_file_of (image_dir : string) (example : Example) : string :=
  path_join image_dir (name example +:+ "-thumb.png").


(** The test of line 110, as a function of the state the body runs in. *)
Definition must_regenerate (image_dir : string) (example : Example)
    (s : state) : bool :=
  negb (String.eqb (default "" (hashes s !! (name example +:+ ".png")))
                   (MD5.hexdigest (code example)))
  || negb (path_exists s (image_file_of image_dir example)).

(** A valid cache entry: the table stores the digest of the code under the
    output filename, and the image is on disk. *)
Definition cache_valid (image_dir : string) (example : Example)
    (s : state) : Prop :=
  hashes s !! (name example +:+ ".png") = Some (MD5.hexdigest (code example))
  /\ path_exists s (image_file_of image_dir example) = true.

(** Events that belong to the regeneration of an image. *)
Definition regenerating (e : event) : bool :=
  match e with
  | Exec _ | SaveChart _ => true
  | _ => false
  end.

Definition is_dump (e : event) : bool :=
  match e with DumpHashes _ _ => true | _ => false end.

Definition is_load (e : event) : bool :=
  match e with LoadHashes _ => true | _ => false end.

Definition is_save (e : event) : bool :=
  match e with SaveChart _ => true | _ => false end.

Definition is_thumbnail (e : event) : bool :=
  match e with CreateThumbnail _ _ _ => true | _ => false end.

(** Whether every export in a trace is followed at once by a dump of the
    table, and the table is dumped nowhere else. *)
Fixpoint dump_follows_save (t : list event) : bool :=
  match t with
  | [] => true
  | SaveChart _ :: DumpHashes _ _ :: r => dump_follows_save r
  | SaveChart _ :: _ => false
  | DumpHashes _ _ :: _ => false
  | _ :: r => dump_follows_save r
  end.

(** The calls of a turn of the loop that runs to its end in state [s]. *)
Definition thumbnail_events (image_dir : string) (make_thumbnails : bool)
    (example : Example) : list event :=
  if make_thumbnails
  then [CreateThumbnail (image_file_of image_dir example)
          (thumb_file_of image_dir example)
          (default ∅ (galleryParameters example))]
  else [].

Definition turn_events (image_dir : string) (make_thumbnails : bool)
    (example : Example) (s : state) : list event :=
  Print ("-> using cached " +:+ image_file_of image_dir example)
  :: (if must_regenerate image_dir example s
      then [Print ("-> saving " +:+ image_file_of image_dir example);
            Exec (code example);
            SaveChart (image_file_of image_dir example);
            DumpHashes (hash_file_of image_dir)
              (<[name example +:+ ".png" := MD5.hexdigest (code example)]>
                 (hashes s))]
      else [])
  ++ thumbnail_events image_dir make_thumbnails example.

(** Examples that differ at most in what the cache does not look at. *)
Definition same_key (e1 e2 : Example) : Prop :=
  name e1 = name e2 /\ code e1 = code e2.

(** States that agree on the table and on which paths exist. *)
Definition same_view (s1 s2 : state) : Prop :=
  hashes s1 = hashes s2
  /\ dom (files s1) = dom (files s2)
  /\ dirs s1 = dirs s2.

Section Runs.
Context {chart : Type}.
Variable exec_chart : string -> option chart.
Variable savechart : chart -> string -> option string.
Variable create_thumbnail : content -> string -> kwargs -> option string.

(** The two conditional parts of the loop body, with the paths of the
    example filled in. *)
Definition regenerate_image (image_dir : string) (example : Example) : step :=
  regenerate exec_chart savechart (hash_file_of image_dir)
    (image_file_of image_dir example) (name example +:+ ".png")
    (MD5.hexdigest (code example)) example.

Definition thumbnail_step (image_dir : string) (make_thumbnails : bool)
    (example : Example) : step :=
  if make_thumbnails
  then make_thumbnail create_thumbnail image_dir
         (image_file_of image_dir example) example
  else skip.

(** Lines 90-91, and 163-164 of [main]: the directory is made when nothing
    exists at its path. *)
Definition guard (d : string) : step := fun s =>
  if negb (path_exists s d) then makedirs d s else skip s.

(** The guard passes when something exists at the path, or the directory
    can be made. *)
Definition guard_passes (d : string) (s : state) : Prop :=
  path_exists s d = true \/ makedirs_error d s = None.

(** Lines 90-100: the directory guard and the reading of the table. *)
Definition enter (image_dir : string) : step :=
  (fun s => if negb (path_exists s image_dir)
            then makedirs image_dir s else skip s) >>
  load_hashes (hash_file_of image_dir).

Definition entry_events (image_dir : string) (s0 : state) : list event :=
  (if negb (path_exists s0 image_dir) then [Makedirs image_dir] else [])
  ++ (if path_exists s0 (hash_file_of image_dir)
      then [LoadHashes (hash_file_of image_dir)] else []).

(** Lines 90-100 followed by the first [i] turns of the loop. *)
Definition run_until (examples : list Example) (image_dir : string)
    (make_thumbnails : bool) (i : nat) : step :=
  (fun s => if negb (path_exists s image_dir)
            then makedirs image_dir s else skip s) >>
  load_hashes (hash_file_of image_dir) >>
  for_each (process_example exec_chart savechart create_thumbnail
              image_dir make_thumbnails) (take i examples).

(** The state in which the loop body is entered for the [i]-th example,
    when the run gets that far. *)
Definition reaches (examples : list Example) (image_dir : string)
    (make_thumbnails : bool) (s0 : state) (i : nat) : option state :=
  let o := run_until examples image_dir make_thumbnails i s0 in
  match raised o with
  | None => Some (final o)
  | Some _ => None
  end.
(** The calls of a loop that runs to its end, turn by turn. *)
Fixpoint loop_events (d : string) (mk : bool) (l : list Example) (s : state)
  : list event :=
  match l with
  | [] => []
  | ex :: r => turn_events d mk ex s
               ++ loop_events d mk r (final (process_example exec_chart savechart create_thumbnail d mk ex s))
  end.

End Runs.

(** ** Names used in the further properties *)

(** [s'] differs from [s] at most in the files at the paths [W], in more
    directories, and in the table. *)
Definition extends (W : string -> Prop) (s s' : state) : Prop :=
  (forall p, ~ W p -> files s' !! p = files s !! p)
  /\ dom (files s) ⊆ dom (files s')
  /\ dirs s ⊆ dirs s'.


(** Besides, the table of [s'] agrees with that of [s] outside the
    keys [K]. *)
Definition touches (W K : string -> Prop) (s s' : state) : Prop :=
  extends W s s'
  /\ (forall k, ~ K k -> hashes s' !! k = hashes s !! k).

(** The paths a run over [examples] may write, and the keys it may set. *)
Definition run_paths (examples : list Example) (image_dir : string)
    (make_thumbnails : bool) (p : string) : Prop :=
  p = hash_file_of image_dir
  \/ exists ex, ex ∈ examples
       /\ (p = image_file_of image_dir ex
           \/ (make_thumbnails = true /\ p = thumb_file_of image_dir ex)).

Definition run_keys (examples : list Example) (k : string) : Prop :=
  exists ex, ex ∈ examples /\ k = name ex +:+ ".png".

(** What a call of a run over [examples] may be: [makedirs] on the image
    directory, a read or a dump of the hash file, the code, the image
    path or (with thumbnails on) the image and thumbnail paths and the
    gallery parameters of one of the examples. *)
Definition own_call (examples : list Example) (image_dir : string)
    (make_thumbnails : bool) (e : event) : Prop :=
  match e with
  | Makedirs p => p = image_dir
  | LoadHashes p => p = hash_file_of image_dir
  | DumpHashes p _ => p = hash_file_of image_dir
  | Print _ => True
  | Exec src => exists ex, ex ∈ examples /\ src = code ex
  | SaveChart p => exists ex, ex ∈ examples /\ p = image_file_of image_dir ex
  | CreateThumbnail image thumb params =>
      make_thumbnails = true
      /\ exists ex, ex ∈ examples
           /\ image = image_file_of image_dir ex
           /\ thumb = thumb_file_of image_dir ex
           /\ params = default ∅ (galleryParameters ex)
  end.

(** Texts of ASCII characters, on which [title] and [lower] below are
    [str.title] and [str.lower]. *)
Definition is_ascii (c : ascii) : bool := (N_of_ascii c <? 128)%N.

Fixpoint ascii_only (s : string) : bool :=
  match s with
  | EmptyString => true
  | String c r => is_ascii c && ascii_only r
  end.

(** [str.lower], on the ASCII letters. *)
Fixpoint lower (s : string) : string :=
  match s with
  | EmptyString => EmptyString
  | String c r => String (to_lower c) (lower r)
  end.


(** Two files whose categories differ in case only. *)
Module DemoCase.
Definition get_docstring_and_rest (f : string)
  : option (string * option string * string * Z) :=
  if String.eqb f "a.py" then Some ("A", Some "bar charts", "abc", 2%Z)
  else if String.eqb f "b.py" then Some ("B", Some "BAR Charts", "xyz", 2%Z)
  else None.

Definition a : Entry := mkEntry "a" "a.py" None.
Definition b : Entry := mkEntry "b" "b.py" None.

(** What [populate] makes of them. *)
Definition example_a : Example :=
  mkExample "a" "a.py" "A" "Bar Charts" "abc" 2 None "g" true None None.
Definition example_b : Example :=
  mkExample "b" "b.py" "B" "Bar Charts" "xyz" 2 None "g" true None None.
End DemoCase.

(** ** main *)

(** What [main] reads of [app]: [app.builder.srcdir] and the three values
    of [app.builder.config]. *)
Record App := mkApp {
  srcdir : string;
  altair_gallery_dir : string;
  altair_gallery_ref : string;
  altair_gallery_title : string
}.

Section Main.
Context {chart : Type}.
Variable exec_chart : string -> option chart.
Variable savechart : chart -> string -> option string.
Variable create_thumbnail : content -> string -> kwargs -> option string.
Variable get_docstring_and_rest :
  string -> option (string * option string * string * Z).
Variable iter_examples : list Entry.

(** The text Jinja renders from GALLERY_TEMPLATE, which reads the title,
    the groups of [examples|groupby('category')], the image directory and
    the reference label; and from EXAMPLE_TEMPLATE for an example dict. *)
Variable render_gallery :
  string -> list (string * list Example) -> string -> string -> string.
Variable render_example : Example -> string.

Definition target_dir_of (app : App) : string :=
  path_join (srcdir app) (altair_gallery_dir app).

Definition index_file_of (app : App) : string :=
  path_join (target_dir_of app) "index.rst".

Definition index_text (app : App) (examples : list Example) : string :=
  render_gallery (altair_gallery_title app) (gallery_groups examples)
    "/_images" (altair_gallery_ref app).

(** Lines 178-184, the body of the last [for]. *)
Definition write_page (target_dir : string)
    (p : option Example * Example * option Example) : step :=
  write_file (fst (example_page target_dir p))
    (Blob (render_example (snd (example_page target_dir p)))).

(** Lines 163-184, once the examples are there. *)
Definition build_gallery (app : App) (examples : list Example) : step :=
  let target_dir := target_dir_of app in
  let image_dir := path_join (srcdir app) "_images" in
  (fun s => if negb (path_exists s target_dir)
            then makedirs target_dir s else skip s) >>
  write_file (index_file_of app) (Blob (index_text app examples)) >>
  save_example_pngs exec_chart savechart create_thumbnail
    examples image_dir true >>
  for_each (write_page target_dir) (prev_this_next examples).

(** [main(app)]; [None] when [populate_examples] raises, which is after
    the first print and before anything is written. *)
Definition main (app : App) : state -> option outcome := fun s =>
  match populate_examples get_docstring_and_rest iter_examples
          (altair_gallery_ref app) true with
  | None => None
  | Some examples =>
      Some ((emit (Print "altair-gallery main") >>
             build_gallery app examples) s)
  end.

End Main.

(** A renderer and an application to run [main] with. *)
Module DemoMain.
Definition render_gallery (t : string) (groups : list (string * list Example))
    (image_dir : string) (gallery_ref : string) : string :=
  t +:+ ":" +:+ String.concat "," (map fst groups).

Definition render_example (ex : Example) : string :=
  name ex +:+ ":" +:+ code ex.

Definition app : App := mkApp "doc" "gallery" "example-gallery" "Example Gallery".

Definition main :=
  main Demo.exec_chart Demo.savechart Demo.create_thumbnail
    DemoGallery.get_docstring_and_rest DemoGallery.iter_examples
    render_gallery render_example app.



End DemoMain.

(** * Facts *)

(** ** Digests *)

Example md5_empty : MD5.hexdigest "" = "d41d8cd98f00b204e9800998ecf8427e"%string.
Proof. vm_compute. reflexivity. Qed.

Example md5_abc : MD5.hexdigest "abc" = "900150983cd24fb0d6963f7d28e17f72"%string.
Proof. vm_compute. reflexivity. Qed.

Example md5_long :
  MD5.hexdigest "12345678901234567890123456789012345678901234567890123456789012345678901234567890"
  = "57edf4a22be3c955ac49da2e2107b67a"%string.
Proof. vm_compute. reflexivity. Qed.


Lemma hexdigest_length (text : string) :
  String.length (MD5.hexdigest text) = 32%nat.
Proof.
  unfold MD5.hexdigest, MD5.digest.
  destruct (fold_left MD5.compress _ MD5.init) as [[[a b] c] d].
  reflexivity.
Qed.

Lemma hexdigest_nonempty (text : string) : MD5.hexdigest text <> "".
Proof.
  intros E. pose proof (hexdigest_length text) as L.
  rewrite E in L. discriminate L.
Qed.

Global Opaque MD5.hexdigest.

(** [hashes.get(fname, '') == example_hash] holds exactly when the table
    stores the digest under [fname]: a digest is never the default ''. *)
Lemma hashes_match_stored (h : gmap string string) (fname text : string) :
  String.eqb (default "" (h !! fname)) (MD5.hexdigest text) = true
  <-> h !! fname = Some (MD5.hexdigest text).
Proof.
  rewrite String.eqb_eq. destruct (h !! fname) as [v|]; simpl.
  - split; congruence.
  - split; [intros E | discriminate].
    symmetry in E. destruct (hexdigest_nonempty _ E).
Qed.

(** ** Decoding *)

Example utf8_valid_texts :
  utf8_valid [] = true
  /\ utf8_valid [0x7B] = true
  /\ utf8_valid [0xC3; 0xA9] = true
  /\ utf8_valid [0xE2; 0x82; 0xAC] = true
  /\ utf8_valid [0xF0; 0x9F; 0x98; 0x80] = true
  /\ utf8_valid [0x61; 0xC3; 0xA9; 0x62] = true.
Proof. repeat split. Qed.

Example utf8_valid_rejects :
  utf8_valid [0xFF] = false
  /\ utf8_valid [0x80] = false
  /\ utf8_valid [0xC3] = false
  /\ utf8_valid [0xC0; 0x80] = false
  /\ utf8_valid [0xE0; 0x80; 0x80] = false
  /\ utf8_valid [0xED; 0xA0; 0x80] = false
  /\ utf8_valid [0xF4; 0x90; 0x80; 0x80] = false
  /\ utf8_valid [0x61; 0xFF] = false.
Proof. repeat split. Qed.

(** A truncated JSON text fails in the parser, a PNG signature already in
    the decoder. *)
Example decode_error_cases :
  decode_error "{" = JSONDecodeError
  /\ decode_error (String (ascii_of_N 137) "PNG") = UnicodeDecodeError.
Proof. split; reflexivity. Qed.

(** ** Paths *)

Example ancestors_of_paths :
  ancestors "img" = []
  /\ ancestors "out/img" = ["out"]
  /\ ancestors "/srv/doc/_images" = ["/srv"; "/srv/doc"]
  /\ ancestors "" = [].
Proof. repeat split. Qed.

(** [os.makedirs] makes the directories above the one asked for, fails on
    the empty path, and fails below a regular file. *)
Example makedirs_cases :
  dirs (final (makedirs "out/img" (mkState ∅ ∅ ∅))) = {["out"; "out/img"]}
  /\ raised (makedirs "out/img" (mkState ∅ ∅ ∅)) = None
  /\ raised (makedirs "" (mkState ∅ ∅ ∅)) = Some FileNotFoundError
  /\ raised (makedirs "out/img" (mkState {["out" := Blob "x"]} ∅ ∅))
     = Some NotADirectoryError
  /\ raised (makedirs "out" (mkState ∅ {["out"]} ∅)) = Some FileExistsError.
Proof.
  split; [apply set_eq; intros x; vm_compute; set_solver|].
  repeat split.
Qed.

Lemma app_cons (c : ascii) (a b : string) :
  String c a +:+ b = String c (a +:+ b).
Proof. reflexivity. Qed.

Lemma app_nil_l (b : string) : "" +:+ b = b.
Proof. reflexivity. Qed.

Lemma app_assoc_str (a b c : string) : (a +:+ b) +:+ c = a +:+ (b +:+ c).
Proof.
  induction a as [|x a IH]; [reflexivity|].
  rewrite !app_cons, IH. reflexivity.
Qed.

Lemma app_length_str (a b : string) :
  String.length (a +:+ b) = (String.length a + String.length b)%nat.
Proof.
  induction a as [|x a IH]; [reflexivity|].
  rewrite app_cons. simpl. rewrite IH. reflexivity.
Qed.

Lemma path_join_prefix (a b : string) : path_join a b = join_prefix a b +:+ b.
Proof.
  unfold path_join, join_prefix.
  destruct (starts_with_sep b); [reflexivity|].
  destruct (String.eqb a "" || ends_with_sep a); [reflexivity|].
  symmetry. apply app_assoc_str.
Qed.

Lemma starts_with_sep_app (n x : string) :
  starts_with_sep x = false ->
  starts_with_sep (n +:+ x) = starts_with_sep n.
Proof.
  intros Hx. destruct n as [|c n]; [rewrite app_nil_l; exact Hx | reflexivity].
Qed.

Lemma join_prefix_app (a n x y : string) :
  starts_with_sep x = false -> starts_with_sep y = false ->
  join_prefix a (n +:+ x) = join_prefix a (n +:+ y).
Proof.
  intros Hx Hy. unfold join_prefix.
  rewrite (starts_with_sep_app n x Hx), (starts_with_sep_app n y Hy).
  reflexivity.
Qed.

Lemma last_char_app (a b : string) :
  b <> "" -> last_char (a +:+ b) = last_char b.
Proof.
  intros Hb. induction a as [|c a IH]; [reflexivity|].
  rewrite app_cons. simpl. rewrite IH.
  destruct (a +:+ b) eqn:E; [|reflexivity].
  destruct a; [rewrite app_nil_l in E; contradiction | discriminate E].
Qed.

Lemma app_nonempty_r (a b : string) : b <> "" -> a +:+ b <> "".
Proof.
  intros Hb E. apply (f_equal String.length) in E.
  rewrite app_length_str in E. destruct b; [contradiction | simpl in E; lia].
Qed.

Lemma last_char_path_join (a n x : string) :
  x <> "" -> last_char (path_join a (n +:+ x)) = last_char x.
Proof.
  intros Hx. rewrite path_join_prefix.
  rewrite !last_char_app; auto using app_nonempty_r.
Qed.

Lemma thumb_file_not_image_file (d : string) (ex : Example) :
  thumb_file_of d ex <> image_file_of d ex.
Proof.
  unfold thumb_file_of, image_file_of. rewrite !path_join_prefix.
  rewrite (join_prefix_app d (name ex) "-thumb.png" ".png") by reflexivity.
  intros E. apply String.app_inj in E. apply String.app_inj in E.
  discriminate E.
Qed.

Lemma thumb_file_not_hash_file (d : string) (ex : Example) :
  thumb_file_of d ex <> hash_file_of d.
Proof.
  intros E. apply (f_equal last_char) in E.
  unfold thumb_file_of, hash_file_of in E.
  rewrite last_char_path_join in E by discriminate.
  rewrite <- (app_nil_l "_image_hashes.json") in E.
  rewrite last_char_path_join in E by discriminate.
  discriminate E.
Qed.

Lemma image_file_not_hash_file (d : string) (ex : Example) :
  image_file_of d ex <> hash_file_of d.
Proof.
  intros E. apply (f_equal last_char) in E.
  unfold image_file_of, hash_file_of in E.
  rewrite last_char_path_join in E by discriminate.
  rewrite <- (app_nil_l "_image_hashes.json") in E.
  rewrite last_char_path_join in E by discriminate.
  discriminate E.
Qed.

Lemma hash_file_not_image_dir (d : string) : hash_file_of d <> d.
Proof.
  intros E. apply (f_equal String.length) in E.
  unfold hash_file_of in E. rewrite path_join_prefix in E.
  unfold join_prefix in E. simpl starts_with_sep in E. cbv iota in E.
  destruct (String.eqb d "" || ends_with_sep d);
    rewrite ?app_length_str in E; simpl in E; lia.
Qed.

(** ** Sequencing *)

Lemma andthen_ok (f g : step) (s : state) :
  raised (f s) = None ->
  (f >> g) s = mkOutcome (trace (f s) ++ trace (g (final (f s))))
                         (final (g (final (f s))))
                         (raised (g (final (f s)))).
Proof.
  unfold andthen. destruct (f s) as [t s' [x|]]; cbn [raised]; [done|].
  intros _. cbn [trace final]. destruct (g s'); reflexivity.
Qed.

Lemma andthen_raised (f g : step) (s : state) (x : exn) :
  raised (f s) = Some x -> (f >> g) s = f s.
Proof.
  unfold andthen. destruct (f s) as [t s' [y|]]; cbn [raised]; done.
Qed.

Lemma andthen_assoc (f g h : step) (s : state) :
  ((f >> g) >> h) s = (f >> (g >> h)) s.
Proof.
  unfold andthen. destruct (f s) as [t s' [x|]]; [done|].
  destruct (g s') as [t' s'' [x|]]; [done|].
  destruct (h s'') as [t3 s3 r]. by rewrite app_assoc.
Qed.

Lemma andthen_skip_l (g : step) (s : state) : (skip >> g) s = g s.
Proof. unfold andthen, skip. destruct (g s); reflexivity. Qed.

Lemma andthen_emit (e : event) (g : step) (s : state) :
  (emit e >> g) s
  = mkOutcome (e :: trace (g s)) (final (g s)) (raised (g s)).
Proof. unfold andthen, emit. destruct (g s); reflexivity. Qed.

Lemma andthen_ext (f g g' : step) (s : state) :
  (forall s', g s' = g' s') -> (f >> g) s = (f >> g') s.
Proof.
  intros H. unfold andthen. destruct (f s) as [t s' [x|]]; [done|].
  by rewrite H.
Qed.

Lemma andthen_ext_l (f f' g : step) (s : state) :
  f s = f' s -> (f >> g) s = (f' >> g) s.
Proof. intros H. unfold andthen. by rewrite H. Qed.

Lemma for_each_app {A : Type} (body : A -> step) (l1 l2 : list A) (s : state) :
  for_each body (l1 ++ l2) s = (for_each body l1 >> for_each body l2) s.
Proof.
  revert s. induction l1 as [|x l1 IH]; intros s; simpl.
  - rewrite andthen_skip_l. reflexivity.
  - rewrite andthen_assoc. apply andthen_ext. exact IH.
Qed.

(** A finished [f >> g] is a finished [f] followed by a finished [g]. *)
Lemma andthen_finished (f g : step) (s : state) :
  raised ((f >> g) s) = None ->
  raised (f s) = None /\ raised (g (final (f s))) = None.
Proof.
  unfold andthen. destruct (f s) as [t s' [x|]]; cbn [raised final]; [done|].
  destruct (g s'); auto.
Qed.

Lemma andthen_trace (f g : step) (s : state) :
  exists rest, trace ((f >> g) s) = trace (f s) ++ rest.
Proof.
  unfold andthen. destruct (f s) as [t s' [x|]]; cbn [trace].
  - exists []. by rewrite app_nil_r.
  - destruct (g s'); cbn [trace]; eauto.
Qed.

(** ** The loop body *)

Lemma must_regenerate_false (d : string) (ex : Example) (s : state) :
  must_regenerate d ex s = false <-> cache_valid d ex s.
Proof.
  unfold must_regenerate, cache_valid.
  rewrite orb_false_iff, !negb_false_iff, hashes_match_stored. reflexivity.
Qed.

Lemma must_regenerate_true (d : string) (ex : Example) (s : state) :
  must_regenerate d ex s = true <-> ~ cache_valid d ex s.
Proof.
  rewrite <- must_regenerate_false. destruct (must_regenerate d ex s); split; congruence.
Qed.

(** Symbolic execution of a composed statement. *)
Ltac run_steps :=
  repeat (unfold andthen, emit, raise, skip, write_file, set_hashes in *;
          cbn [trace final raised files dirs hashes] in *;
          simplify_eq;
          try case_match).

Set Default Proof Using "Type".

Section Body.
Context {chart : Type}.
Variable exec_chart : string -> option chart.
Variable savechart : chart -> string -> option string.
Variable create_thumbnail : content -> string -> kwargs -> option string.

Local Abbreviation body := (process_example exec_chart savechart create_thumbnail).
Local Abbreviation regen := (regenerate_image exec_chart savechart).
Local Abbreviation thumb := (thumbnail_step create_thumbnail).
Local Abbreviation run := (save_example_pngs exec_chart savechart create_thumbnail).
Local Abbreviation run_to := (run_until exec_chart savechart create_thumbnail).
Local Abbreviation at_turn := (reaches exec_chart savechart create_thumbnail).

Lemma process_example_unfold (d : string) (mk : bool) (ex : Example) (s : state) :
  body d mk ex s =
  (emit (Print ("-> using cached " +:+ image_file_of d ex)) >>
   (fun s' => if must_regenerate d ex s' then regen d ex s' else skip s') >>
   thumb d mk ex) s.
Proof. reflexivity. Qed.

(** The thumbnail step: one call, and at most the thumbnail file written. *)
Lemma make_thumbnail_spec (d : string) (ex : Example) (s : state) :
  let o := make_thumbnail create_thumbnail d (image_file_of d ex) ex s in
  trace o = [CreateThumbnail (image_file_of d ex) (thumb_file_of d ex)
               (default ∅ (galleryParameters ex))]
  /\ hashes (final o) = hashes s
  /\ dirs (final o) = dirs s
  /\ (forall p, p <> thumb_file_of d ex -> files (final o) !! p = files s !! p)
  /\ (raised o = None ->
      dom (files (final o)) = {[thumb_file_of d ex]} ∪ dom (files s)).
Proof.
  unfold make_thumbnail. fold (thumb_file_of d ex).
  run_steps; repeat split; try done.
  - intros p Hp. by rewrite lookup_insert_ne.
  - intros _. by rewrite dom_insert_L.
Qed.

(** Regeneration that runs to its end: the calls made and the state left. *)
Lemma regenerate_finished (d : string) (ex : Example) (s : state) :
  let o := regen d ex s in
  raised o = None ->
  exists c png,
    exec_chart (code ex) = Some c
    /\ savechart c (image_file_of d ex) = Some png
    /\ trace o = [Print ("-> saving " +:+ image_file_of d ex);
                  Exec (code ex);
                  SaveChart (image_file_of d ex);
                  DumpHashes (hash_file_of d)
                    (<[name ex +:+ ".png" := MD5.hexdigest (code ex)]> (hashes s))]
    /\ hashes (final o)
       = <[name ex +:+ ".png" := MD5.hexdigest (code ex)]> (hashes s)
    /\ dirs (final o) = dirs s
    /\ files (final o)
       = <[hash_file_of d := Json (hashes (final o))]>
           (<[image_file_of d ex := Blob png]> (files s)).
Proof.
  unfold regenerate_image, regenerate, dump_hashes.
  run_steps; try done. intros _.
  eexists _, _. repeat split; try done.
Qed.

(** Regeneration runs to its end when the code yields a chart, the chart
    is exported, and neither path is a directory. *)
Lemma regenerate_finishes (d : string) (ex : Example) (s : state)
    (c : chart) (png : string) :
  exec_chart (code ex) = Some c ->
  savechart c (image_file_of d ex) = Some png ->
  image_file_of d ex ∉ dirs s ->
  hash_file_of d ∉ dirs s ->
  raised (regen d ex s) = None.
Proof.
  intros Hc Hp Hi Hh.
  unfold regenerate_image, regenerate, dump_hashes. rewrite Hc.
  run_steps; try done;
    repeat match goal with
           | H : bool_decide _ = true |- _ => apply bool_decide_eq_true_1 in H
           end; done.
Qed.

(** Whatever its end, regeneration starts by running the code, keeps the
    directories and touches no file but the image and the hash file. *)
Lemma regenerate_any (d : string) (ex : Example) (s : state) :
  let o := regen d ex s in
  Exec (code ex) ∈ trace o
  /\ dirs (final o) = dirs s
  /\ (forall p, p <> image_file_of d ex -> p <> hash_file_of d ->
             files (final o) !! p = files s !! p).
Proof.
  unfold regenerate_image, regenerate, dump_hashes.
  run_steps;
    (split; [set_solver | split; [done|]]); intros p Hp1 Hp2;
    rewrite ?lookup_insert_ne by done; done.
Qed.

(** A cache hit: nothing but the message and the thumbnail step. *)
Lemma body_hit (d : string) (mk : bool) (ex : Example) (s : state) :
  cache_valid d ex s ->
  body d mk ex s =
  (emit (Print ("-> using cached " +:+ image_file_of d ex)) >>
   thumb d mk ex) s.
Proof.
  intros H%must_regenerate_false. rewrite process_example_unfold.
  unfold andthen at 1 3. simpl. unfold andthen at 1. simpl.
  rewrite H. simpl. destruct (thumb d mk ex s); reflexivity.
Qed.

(** A cache miss: the message, the regeneration, the thumbnail step. *)
Lemma body_miss (d : string) (mk : bool) (ex : Example) (s : state) :
  ~ cache_valid d ex s ->
  body d mk ex s =
  (emit (Print ("-> using cached " +:+ image_file_of d ex)) >>
   regen d ex >> thumb d mk ex) s.
Proof.
  intros H%must_regenerate_true. rewrite process_example_unfold.
  unfold andthen at 1 3. simpl. unfold andthen at 1 2. simpl.
  rewrite H. reflexivity.
Qed.

Lemma thumb_spec (d : string) (mk : bool) (ex : Example) (s : state) :
  let o := thumb d mk ex s in
  Forall (fun e => regenerating e = false /\ is_dump e = false) (trace o)
  /\ hashes (final o) = hashes s
  /\ dirs (final o) = dirs s
  /\ (forall p, p <> thumb_file_of d ex -> files (final o) !! p = files s !! p).
Proof.
  unfold thumbnail_step. destruct mk; simpl.
  - destruct (make_thumbnail_spec d ex s) as (Ht & Hh & Hd & Hf & _).
    rewrite Ht. repeat split; auto.
  - repeat split; auto.
Qed.

(** A turn on a cache miss runs the code of the example. *)
Lemma body_miss_exec (d : string) (mk : bool) (ex : Example) (s : state) :
  ~ cache_valid d ex s -> Exec (code ex) ∈ trace (body d mk ex s).
Proof.
  intros Hn. rewrite body_miss by done.
  destruct (regenerate_any d ex s) as (Hx & _).
  rewrite andthen_emit. cbn [trace].
  destruct (andthen_trace (regen d ex) (thumb d mk ex) s) as [rest ->].
  set_solver.
Qed.

(** A turn makes no regeneration call exactly on a valid cache entry. *)
Lemma body_skips_iff (d : string) (mk : bool) (ex : Example) (s : state) :
  cache_valid d ex s
  <-> Forall (fun e => regenerating e = false) (trace (body d mk ex s)).
Proof.
  split.
  - intros Hv. rewrite body_hit by done.
    rewrite andthen_emit. cbn [trace]. constructor; [done|].
    destruct (thumb_spec d mk ex s) as (Ht & _).
    eapply Forall_impl; [exact Ht|]. by intros e [? _].
  - intros Hall.
    destruct (decide (must_regenerate d ex s = false))
      as [H|H]; [by apply must_regenerate_false|].
    apply not_false_is_true, must_regenerate_true in H.
    pose proof (body_miss_exec d mk ex s H) as Hx.
    rewrite Forall_forall in Hall. specialize (Hall _ Hx). discriminate Hall.
Qed.

Lemma run_split (examples : list Example) (d : string) (mk : bool)
    (i : nat) (ex : Example) (s0 : state) :
  examples !! i = Some ex ->
  run examples d mk s0 =
  (run_to examples d mk i >>
   body d mk ex >>
   for_each (body d mk) (drop (S i) examples) >>
   dump_hashes (hash_file_of d)) s0.
Proof.
  intros Hi. unfold save_example_pngs, run_until.
  rewrite <- (take_drop_middle examples i ex Hi) at 1.
  rewrite (andthen_assoc _ (load_hashes _ >> _)).
  apply andthen_ext. intros s1.
  rewrite (andthen_assoc (load_hashes _)).
  apply andthen_ext. intros s2.
  rewrite (andthen_ext_l _ _ _ _ (for_each_app _ _ _ _)).
  rewrite andthen_assoc. apply andthen_ext. intros s3.
  apply andthen_assoc.
Qed.

(** The events of a turn of the loop are events of the run. *)
Lemma turn_in_run (examples : list Example) (d : string) (mk : bool)
    (i : nat) (ex : Example) (s0 s : state) :
  examples !! i = Some ex ->
  at_turn examples d mk s0 i = Some s ->
  exists before rest,
    trace (run examples d mk s0) = before ++ trace (body d mk ex s) ++ rest.
Proof.
  intros Hi Hr. rewrite (run_split _ _ _ _ _ _ Hi).
  unfold reaches in Hr.
  destruct (raised (run_to examples d mk i s0)) eqn:E; [done|].
  simplify_eq. rewrite andthen_ok by done. simpl.
  destruct (andthen_trace (body d mk ex)
              (for_each (body d mk) (drop (S i) examples) >>
               dump_hashes (hash_file_of d))
              (final (run_to examples d mk i s0))) as [rest ->].
  eauto.
Qed.

End Body.

(** ** Finished turns *)

Section Turns.
Context {chart : Type}.
Variable exec_chart : string -> option chart.
Variable savechart : chart -> string -> option string.
Variable create_thumbnail : content -> string -> kwargs -> option string.

Local Abbreviation body := (process_example exec_chart savechart create_thumbnail).
Local Abbreviation regen := (regenerate_image exec_chart savechart).
Local Abbreviation thumb := (thumbnail_step create_thumbnail).

Lemma thumb_finished (d : string) (mk : bool) (ex : Example) (s : state) :
  let o := thumb d mk ex s in
  raised o = None ->
  trace o = thumbnail_events d mk ex
  /\ hashes (final o) = hashes s
  /\ dirs (final o) = dirs s
  /\ dom (files (final o))
     = (if mk then {[thumb_file_of d ex]} else ∅) ∪ dom (files s).
Proof.
  unfold thumbnail_step, thumbnail_events. destruct mk; cbn zeta.
  - intros Hf.
    destruct (make_thumbnail_spec create_thumbnail d ex s)
      as (Ht & Hh & Hd & _ & Hdom).
    auto.
  - intros _. cbn [skip trace final]. repeat split.
    by rewrite union_empty_l_L.
Qed.

(** A thumbnail step that runs to its end has read the image and written
    what the routine made of it. *)
Lemma make_thumbnail_finished (d : string) (ex : Example) (s : state) :
  raised (thumb d true ex s) = None ->
  exists img t,
    files s !! image_file_of d ex = Some img
    /\ create_thumbnail img (thumb_file_of d ex)
         (default ∅ (galleryParameters ex)) = Some t
    /\ files (final (thumb d true ex s))
       = <[thumb_file_of d ex := Blob t]> (files s).
Proof.
  unfold thumbnail_step, make_thumbnail. fold (thumb_file_of d ex).
  rewrite andthen_emit. cbn [raised final].
  destruct (files s !! image_file_of d ex) as [img|] eqn:Ei; [|done].
  destruct (create_thumbnail img (thumb_file_of d ex)
              (default ∅ (galleryParameters ex))) as [t|] eqn:Et; [|done].
  unfold write_file.
  destruct (bool_decide (thumb_file_of d ex ∈ dirs s)); [done|].
  intros _. by exists img, t.
Qed.

(** What a turn that runs to its end has done. *)
Lemma body_finished (d : string) (mk : bool) (ex : Example) (s : state) :
  let o := body d mk ex s in
  raised o = None ->
  trace o = turn_events d mk ex s
  /\ hashes (final o)
     = (if must_regenerate d ex s
        then <[name ex +:+ ".png" := MD5.hexdigest (code ex)]> (hashes s)
        else hashes s)
  /\ dirs (final o) = dirs s
  /\ dom (files (final o))
     = (if mk then {[thumb_file_of d ex]} else ∅)
       ∪ (if must_regenerate d ex s
          then {[hash_file_of d; image_file_of d ex]} else ∅)
       ∪ dom (files s).
Proof.
  cbn zeta. unfold turn_events.
  destruct (must_regenerate d ex s) eqn:Hm.
  - apply must_regenerate_true in Hm. rewrite body_miss by done.
    rewrite andthen_emit. cbn [raised trace final]. intros Hf.
    apply andthen_finished in Hf as [Hr Ht].
    rewrite andthen_ok by done. cbn [trace final].
    destruct (regenerate_finished exec_chart savechart d ex s Hr)
      as (c & png & _ & _ & Htr & Hh & Hd & Hfl).
    destruct (thumb_finished d mk ex _ Ht) as (Ht' & Hh' & Hd' & Hdom).
    rewrite Htr, Ht', Hh', Hh, Hd', Hd, Hdom, Hfl.
    repeat split. rewrite !dom_insert_L. set_solver.
  - apply must_regenerate_false in Hm. rewrite body_hit by done.
    rewrite andthen_emit. cbn [raised trace final]. intros Ht.
    destruct (thumb_finished d mk ex _ Ht) as (Ht' & Hh' & Hd' & Hdom).
    rewrite Ht', Hh', Hd', Hdom. repeat split.
    by rewrite union_empty_r_L.
Qed.

End Turns.

(** ** Whole runs *)

Lemma path_exists_dom (s : state) (p : string) :
  path_exists s p = bool_decide (p ∈ dom (files s)) || bool_decide (p ∈ dirs s).
Proof.
  unfold path_exists. f_equal. apply bool_decide_ext.
  by rewrite elem_of_dom.
Qed.

Lemma ancestors_shorter (p a : string) :
  a ∈ ancestors p -> (String.length a < String.length p)%nat.
Proof.
  revert a. induction p as [|c r IH]; intros a Ha; cbn [ancestors] in Ha.
  - by apply elem_of_nil in Ha.
  - apply elem_of_app in Ha as [Ha|Ha].
    + destruct r as [|c' r]; cbn [starts_with_sep] in Ha;
        [by apply elem_of_nil in Ha|].
      destruct (Ascii.eqb c' "/"); [|by apply elem_of_nil in Ha].
      apply list_elem_of_singleton in Ha as ->. cbn. lia.
    + apply list_elem_of_fmap in Ha as (b & -> & Hb).
      specialize (IH _ Hb). cbn. lia.
Qed.

Lemma hash_file_longer (d : string) :
  (String.length d < String.length (hash_file_of d))%nat.
Proof.
  unfold hash_file_of. rewrite path_join_prefix.
  unfold join_prefix. simpl starts_with_sep. cbv iota.
  destruct (String.eqb d "" || ends_with_sep d);
    rewrite ?app_length_str; cbn [String.length]; lia.
Qed.

Lemma hash_file_not_made (d : string) :
  hash_file_of d ∉ ({[d]} ∪ list_to_set (ancestors d) : gset string).
Proof.
  pose proof (hash_file_longer d) as Hl.
  intros [He%elem_of_singleton|Ha%elem_of_list_to_set]%elem_of_union.
  - apply (f_equal String.length) in He. lia.
  - apply ancestors_shorter in Ha. lia.
Qed.

Lemma path_exists_more_dirs (s : state) (D : gset string) (p : string) :
  p ∉ D ->
  path_exists (mkState (files s) (D ∪ dirs s) (hashes s)) p = path_exists s p.
Proof.
  intros Hp. unfold path_exists. cbn [files dirs]. f_equal.
  apply bool_decide_ext. set_solver.
Qed.

(** The directory guard: nothing happens when the path exists; otherwise
    [makedirs] is called, and adds the directory and those above it, or
    raises and leaves the state as it was. *)
Lemma guard_spec (d : string) (s0 : state) :
  let o := guard d s0 in
  files (final o) = files s0
  /\ hashes (final o) = hashes s0
  /\ dirs s0 ⊆ dirs (final o)
  /\ dirs (final o) ⊆ {[d]} ∪ list_to_set (ancestors d) ∪ dirs s0
  /\ trace o = (if path_exists s0 d then [] else [Makedirs d])
  /\ raised o = (if path_exists s0 d then None else makedirs_error d s0)
  /\ (raised o = None -> path_exists (final o) d = true)
  /\ (forall p, p ∉ ({[d]} ∪ list_to_set (ancestors d) : gset string) ->
                path_exists (final o) p = path_exists s0 p)
  /\ (raised o <> None -> final o = s0).
Proof.
  unfold guard. destruct (path_exists s0 d) eqn:Hd; cbn [negb].
  - cbn. repeat split; try done. set_solver.
  - unfold makedirs. rewrite andthen_emit. cbn [trace final raised].
    destruct (makedirs_error d s0) as [x|]; cbn [raise trace final raised].
    + repeat split; try done. set_solver.
    + cbn [files dirs hashes]. repeat split; try done; try set_solver.
      * intros _. unfold path_exists. cbn [files dirs].
        apply orb_true_iff. right. apply bool_decide_eq_true_2. set_solver.
      * intros p Hp. by apply path_exists_more_dirs.
Qed.

Lemma guard_passes_iff (d : string) (s0 : state) :
  guard_passes d s0 <-> raised (guard d s0) = None.
Proof.
  destruct (guard_spec d s0) as (_ & _ & _ & _ & _ & -> & _).
  unfold guard_passes. destruct (path_exists s0 d); [tauto|].
  split; [by intros [|]|by right].
Qed.

(** Reading the table: at most one read, of a file that exists. *)
Lemma load_hashes_spec (hf : string) (s : state) :
  let o := load_hashes hf s in
  files (final o) = files s
  /\ dirs (final o) = dirs s
  /\ trace o = (if path_exists s hf then [LoadHashes hf] else [])
  /\ raised o
     = (if path_exists s hf then
          match files s !! hf with
          | Some (Json _) => None
          | Some (Blob b) => Some (decode_error b)
          | None => Some IsADirectoryError
          end
        else None)
  /\ (raised o = None ->
      hashes (final o)
      = match files s !! hf with
        | Some (Json h) => h
        | _ => ∅
        end).
Proof.
  unfold load_hashes. destruct (path_exists s hf) eqn:Hh.
  - rewrite andthen_emit. cbn [trace final raised].
    destruct (files s !! hf) as [[h|b]|]; cbn; repeat split; done.
  - apply orb_false_iff in Hh as [Hh _]. apply bool_decide_eq_false_1 in Hh.
    cbn. repeat split; try done. intros _.
    by destruct (files s !! hf) as [[]|]; [destruct Hh; eauto..|].
Qed.

Lemma enter_guard (d : string) (s0 : state) :
  enter d s0 = (guard d >> load_hashes (hash_file_of d)) s0.
Proof. reflexivity. Qed.

(** The entry: at most one [makedirs], then at most one read of the hash
    file; the files stay as they are. *)
Lemma enter_any (d : string) (s0 : state) :
  let o := enter d s0 in
  (guard_passes d s0 -> trace o = entry_events d s0)
  /\ files (final o) = files s0
  /\ (raised o = None ->
      hashes (final o)
      = match files s0 !! hash_file_of d with
        | Some (Json h) => h
        | _ => ∅
        end)
  /\ (raised o = None -> guard_passes d s0 /\ path_exists (final o) d = true)
  /\ dirs s0 ⊆ dirs (final o).
Proof.
  cbn zeta. rewrite enter_guard.
  destruct (guard_spec d s0) as (Hf & Hh & Hd & _ & Ht & Hr & Hex & Hp & _).
  specialize (Hp _ (hash_file_not_made d)).
  destruct (load_hashes_spec (hash_file_of d) (final (guard d s0)))
    as (Lf & Ld & Lt & Lr & Lh).
  rewrite Hp, Hf in *.
  destruct (raised (guard d s0)) as [x|] eqn:Hg.
  - rewrite (andthen_raised _ _ _ _ Hg). rewrite Hg.
    split; [by intros ?%guard_passes_iff; congruence|].
    repeat split; try done.
  - rewrite andthen_ok by done. cbn [trace final raised].
    rewrite Lf, Ld, Lt, Ht. unfold entry_events.
    split; [by destruct (path_exists s0 d)|].
    split; [done|]. split; [exact Lh|].
    split; [|done]. intros _. split; [by apply guard_passes_iff|].
    specialize (Hex eq_refl). rewrite path_exists_dom in Hex |- *.
    rewrite Hf in Hex. by rewrite Lf, Ld.
Qed.

(** Whether the entry raises, and what. *)
Lemma enter_raised (d : string) (s0 : state) :
  raised (enter d s0)
  = if path_exists s0 d || bool_decide (makedirs_error d s0 = None) then
      if path_exists s0 (hash_file_of d) then
        match files s0 !! hash_file_of d with
        | Some (Json _) => None
        | Some (Blob b) => Some (decode_error b)
        | None => Some IsADirectoryError
        end
      else None
    else makedirs_error d s0.
Proof.
  rewrite enter_guard.
  destruct (guard_spec d s0) as (Hf & _ & _ & _ & _ & Hr & _ & Hp & _).
  specialize (Hp _ (hash_file_not_made d)).
  destruct (load_hashes_spec (hash_file_of d) (final (guard d s0)))
    as (_ & _ & _ & Lr & _).
  rewrite Hp, Hf in Lr.
  destruct (path_exists s0 d) eqn:Hd; cbn [orb].
  - rewrite andthen_ok by done. cbn [raised]. exact Lr.
  - destruct (makedirs_error d s0) as [x|] eqn:Hm.
    + rewrite (andthen_raised _ _ _ x) by done. by rewrite Hr.
    + rewrite andthen_ok by done. cbn [raised]. exact Lr.
Qed.

Lemma for_each_cons_finished {A : Type} (f : A -> step) (x : A) (l : list A)
    (s : state) :
  raised (for_each f (x :: l) s) = None ->
  raised (f x s) = None
  /\ raised (for_each f l (final (f x s))) = None
  /\ trace (for_each f (x :: l) s)
     = trace (f x s) ++ trace (for_each f l (final (f x s)))
  /\ final (for_each f (x :: l) s) = final (for_each f l (final (f x s))).
Proof.
  cbn [for_each]. intros H. apply andthen_finished in H as H'.
  destruct H' as [H1 H2]. rewrite andthen_ok by done. auto.
Qed.

Section WholeRuns.
Context {chart : Type}.
Variable exec_chart : string -> option chart.
Variable savechart : chart -> string -> option string.
Variable create_thumbnail : content -> string -> kwargs -> option string.

Local Abbreviation body := (process_example exec_chart savechart create_thumbnail).
Local Abbreviation run := (save_example_pngs exec_chart savechart create_thumbnail).
Local Abbreviation run_to := (run_until exec_chart savechart create_thumbnail).
Local Abbreviation at_turn := (reaches exec_chart savechart create_thumbnail).
Local Abbreviation events_of := (loop_events exec_chart savechart create_thumbnail).

Lemma run_enter (examples : list Example) (d : string) (mk : bool) (s0 : state) :
  run examples d mk s0
  = (enter d >> for_each (body d mk) examples >> dump_hashes (hash_file_of d)) s0.
Proof. unfold save_example_pngs, enter. by rewrite andthen_assoc. Qed.

Lemma run_until_enter (examples : list Example) (d : string) (mk : bool)
    (i : nat) (s0 : state) :
  run_to examples d mk i s0
  = (enter d >> for_each (body d mk) (take i examples)) s0.
Proof. unfold run_until, enter. by rewrite andthen_assoc. Qed.

Lemma loop_finished (d : string) (mk : bool) (l : list Example) (s : state) :
  raised (for_each (body d mk) l s) = None ->
  trace (for_each (body d mk) l s) = events_of d mk l s.
Proof.
  revert s. induction l as [|ex l IH]; intros s H; [done|].
  apply for_each_cons_finished in H as (H1 & H2 & -> & _).
  cbn [loop_events]. rewrite (IH _ H2).
  by destruct (body_finished exec_chart savechart create_thumbnail d mk ex s H1)
    as (-> & _).
Qed.

Lemma loop_events_thumbnails (d : string) (mk : bool) (l : list Example)
    (s : state) :
  List.filter is_thumbnail (events_of d mk l s)
  = flat_map (thumbnail_events d mk) l.
Proof.
  revert s. induction l as [|ex l IH]; intros s; [done|].
  cbn [loop_events flat_map]. rewrite List.filter_app, IH. f_equal.
  unfold turn_events, thumbnail_events.
  by destruct (must_regenerate d ex s), mk.
Qed.

Lemma loop_events_loads (d : string) (mk : bool) (l : list Example) (s : state) :
  List.filter is_load (events_of d mk l s) = [].
Proof.
  revert s. induction l as [|ex l IH]; intros s; [done|].
  cbn [loop_events]. rewrite List.filter_app, IH.
  unfold turn_events, thumbnail_events.
  by destruct (must_regenerate d ex s), mk.
Qed.

Lemma loop_events_dumps (d : string) (mk : bool) (l : list Example) (s : state) :
  length (List.filter is_dump (events_of d mk l s))
  = length (List.filter is_save (events_of d mk l s)).
Proof.
  revert s. induction l as [|ex l IH]; intros s; [done|].
  cbn [loop_events]. rewrite !List.filter_app, !length_app, IH. f_equal.
  unfold turn_events, thumbnail_events.
  by destruct (must_regenerate d ex s), mk.
Qed.

(** A run that reaches its end: the entry, the turns, the last dump. *)
Lemma run_finished (examples : list Example) (d : string) (mk : bool)
    (s0 : state) :
  let o := run examples d mk s0 in
  raised o = None ->
  trace o = entry_events d s0
            ++ events_of d mk examples (final (enter d s0))
            ++ [DumpHashes (hash_file_of d) (hashes (final o))]
  /\ files (final o) !! hash_file_of d = Some (Json (hashes (final o))).
Proof.
  intros o. subst o. rewrite run_enter. intros H.
  apply andthen_finished in H as H'. destruct H' as [He H'].
  apply andthen_finished in H' as H''. destruct H'' as [Hl Hd].
  rewrite andthen_ok by done. cbn [trace final].
  rewrite andthen_ok by done. cbn [trace final].
  destruct (enter_any d s0) as (Ht & _ & _ & Hg & _).
  rewrite (Ht (proj1 (Hg He))). clear Ht Hg.
  rewrite (loop_finished _ _ _ _ Hl).
  set (s := final (for_each (body d mk) examples (final (enter d s0)))) in *.
  clearbody s. clear -Hd. unfold dump_hashes in *.
  rewrite andthen_emit in *. cbn [trace final raised] in *.
  unfold write_file in *.
  destruct (bool_decide (hash_file_of d ∈ dirs s)); [done|].
  cbn [trace final files hashes]. by rewrite lookup_insert_eq.
Qed.

(** In a run that reaches its end every turn is entered and ends. *)
Lemma run_finished_turn (examples : list Example) (d : string) (mk : bool)
    (s0 : state) (i : nat) (ex : Example) :
  examples !! i = Some ex ->
  raised (run examples d mk s0) = None ->
  exists s, at_turn examples d mk s0 i = Some s
            /\ raised (body d mk ex s) = None.
Proof.
  intros Hi H. rewrite (run_split _ _ _ _ _ _ _ _ _ Hi) in H.
  apply andthen_finished in H as [H1 H2].
  apply andthen_finished in H2 as [H2 _].
  unfold reaches. rewrite H1. eauto.
Qed.

End WholeRuns.

(** ** The image cache *)

Section Cache.
Context {chart : Type}.
Variable exec_chart : string -> option chart.
Variable savechart : chart -> string -> option string.
Variable create_thumbnail : content -> string -> kwargs -> option string.

Local Abbreviation body := (process_example exec_chart savechart create_thumbnail).
Local Abbreviation regen := (regenerate_image exec_chart savechart).
Local Abbreviation thumb := (thumbnail_step create_thumbnail).
Local Abbreviation run := (save_example_pngs exec_chart savechart create_thumbnail).
Local Abbreviation at_turn := (reaches exec_chart savechart create_thumbnail).

(** C1.  For the [i]-th example of a run of [save_example_pngs], entered
    in state [s]: the turn makes no regeneration call ([exec],
    [savechart]) exactly when [s] stores the MD5 digest of the code under
    the example's output filename and the image file exists; those calls,
    when made, are calls of the run.  Otherwise the code is executed, and
    when it yields a chart that is exported and neither the image path
    nor the hash file path is a directory, the image is written and the
    table, in memory and on disk, holds the new digest under that
    filename. *)
Theorem regeneration_skipped_iff_cache_valid
    (examples : list Example) (image_dir : string) (make_thumbnails : bool)
    (s0 : state) (i : nat) (example : Example) (s : state) :
  examples !! i = Some example ->
  at_turn examples image_dir make_thumbnails s0 i = Some s ->
  let o := body image_dir make_thumbnails example s in
  let fname := name example +:+ ".png" in
  let image_file := image_file_of image_dir example in
  let hash_file := hash_file_of image_dir in
  (exists before rest,
      trace (run examples image_dir make_thumbnails s0)
      = before ++ trace o ++ rest)
  /\ (cache_valid image_dir example s
      <-> Forall (fun e => regenerating e = false) (trace o))
  /\ (~ cache_valid image_dir example s ->
      Exec (code example) ∈ trace o
      /\ forall c png,
          exec_chart (code example) = Some c ->
          savechart c image_file = Some png ->
          image_file ∉ dirs s ->
          hash_file ∉ dirs s ->
          SaveChart image_file ∈ trace o
          /\ files (final o) !! image_file = Some (Blob png)
          /\ hashes (final o)
             = <[fname := MD5.hexdigest (code example)]> (hashes s)
          /\ files (final o) !! hash_file = Some (Json (hashes (final o)))).
Proof.
  intros Hi Hr o fname image_file hash_file.
  split; [exact (turn_in_run _ _ _ _ _ _ _ _ _ _ Hi Hr)|].
  split; [apply body_skips_iff|].
  intros Hn. split; [by apply body_miss_exec|]. intros c png Hc Hp Hdi Hdh.
  pose proof (regenerate_finishes exec_chart savechart image_dir example s
                c png Hc Hp Hdi Hdh) as Hfin.
  destruct (regenerate_finished exec_chart savechart image_dir example s Hfin)
    as (c' & png' & Hc' & Hp' & Ht & Hh & _ & Hf).
  assert (c' = c) by congruence. subst c'.
  assert (png' = png) by (unfold image_file in Hp; congruence). subst png'.
  subst o. rewrite body_miss by done.
  rewrite andthen_emit. cbn [trace final].
  rewrite andthen_ok by exact Hfin. cbn [trace final]. rewrite Ht.
  destruct (thumb_spec create_thumbnail image_dir make_thumbnails example
              (final (regen image_dir example s)))
    as (_ & Hh2 & _ & Hf2).
  split; [set_solver|].
  rewrite Hf2 by (apply not_eq_sym, thumb_file_not_image_file).
  rewrite Hf2 by (apply not_eq_sym, thumb_file_not_hash_file).
  rewrite Hh2, Hf, Hh.
  rewrite lookup_insert_ne by (apply not_eq_sym, image_file_not_hash_file).
  rewrite !lookup_insert_eq. done.
Qed.

(** C9.  On a cache hit the turn leaves the hash table as it is, makes no
    [savechart] call and no dump of the table, and leaves the image file
    and the hash file on disk as they are. *)
Theorem cache_hit_writes_nothing
    (examples : list Example) (image_dir : string) (make_thumbnails : bool)
    (s0 : state) (i : nat) (example : Example) (s : state) :
  examples !! i = Some example ->
  at_turn examples image_dir make_thumbnails s0 i = Some s ->
  cache_valid image_dir example s ->
  let o := body image_dir make_thumbnails example s in
  hashes (final o) = hashes s
  /\ Forall (fun e => is_save e = false /\ is_dump e = false) (trace o)
  /\ files (final o) !! image_file_of image_dir example
     = files s !! image_file_of image_dir example
  /\ files (final o) !! hash_file_of image_dir
     = files s !! hash_file_of image_dir.
Proof.
  intros _ _ Hv o. subst o. rewrite body_hit by done.
  rewrite andthen_emit. cbn [trace final].
  destruct (thumb_spec create_thumbnail image_dir make_thumbnails example s)
    as (Ht & Hh & _ & Hf).
  split; [done|]. split.
  - constructor; [done|]. eapply Forall_impl; [exact Ht|].
    intros [] [H1 H2]; done.
  - split; apply Hf.
    + apply not_eq_sym, thumb_file_not_image_file.
    + apply not_eq_sym, thumb_file_not_hash_file.
Qed.

(** C2, as the code has it: the "using cached" message is printed at the
    start of every turn, also of one that goes on to regenerate the
    image. *)
Theorem using_cached_printed_when_regenerating
    (image_dir : string) (make_thumbnails : bool) (example : Example)
    (s : state) :
  ~ cache_valid image_dir example s ->
  let o := body image_dir make_thumbnails example s in
  exists rest,
    trace o = Print ("-> using cached " +:+ image_file_of image_dir example)
              :: Print ("-> saving " +:+ image_file_of image_dir example)
              :: Exec (code example) :: rest.
Proof.
  intros Hn o. subst o. rewrite body_miss by done.
  rewrite andthen_emit. cbn [trace].
  destruct (andthen_trace (regen image_dir example)
              (thumb image_dir make_thumbnails example) s) as [rest ->].
  unfold regenerate_image, regenerate. rewrite !andthen_emit. cbn [trace].
  eauto.
Qed.

End Cache.

Lemma demo_fresh_not_valid : ~ cache_valid "img" Demo.ex_a Demo.fresh.
Proof. intros [H _]. vm_compute in H. discriminate H. Qed.

Lemma demo_loaded_valid : cache_valid "img" Demo.ex_a Demo.loaded.
Proof. split; vm_compute; reflexivity. Qed.

Lemma regeneration_skipped_iff_cache_valid_witness :
  [Demo.ex_a] !! 0%nat = Some Demo.ex_a
  /\ reaches Demo.exec_chart Demo.savechart Demo.create_thumbnail
       [Demo.ex_a] "img" true Demo.empty_world 0 = Some Demo.fresh
  /\ ~ cache_valid "img" Demo.ex_a Demo.fresh
  /\ SaveChart "img/a.png" ∈ trace (Demo.body "img" true Demo.ex_a Demo.fresh)
  /\ hashes (final (Demo.body "img" true Demo.ex_a Demo.fresh))
     = <["a.png" := MD5.hexdigest "abc"]> ∅.
Proof.
  assert (H0 : [Demo.ex_a] !! 0%nat = Some Demo.ex_a) by reflexivity.
  assert (H1 : reaches Demo.exec_chart Demo.savechart Demo.create_thumbnail
                 [Demo.ex_a] "img" true Demo.empty_world 0 = Some Demo.fresh)
    by (vm_compute; reflexivity).
  destruct (regeneration_skipped_iff_cache_valid
              Demo.exec_chart Demo.savechart Demo.create_thumbnail
              [Demo.ex_a] "img" true Demo.empty_world 0 Demo.ex_a Demo.fresh
              H0 H1) as (_ & _ & Hm).
  destruct (Hm demo_fresh_not_valid) as (_ & Hm').
  destruct (Hm' "abc" "PNG:abc") as (Hs & _ & Hh & _);
    [reflexivity | reflexivity | vm_compute; set_solver
    | vm_compute; set_solver |].
  exact (conj H0 (conj H1 (conj demo_fresh_not_valid (conj Hs Hh)))).
Defined.

Lemma cache_hit_writes_nothing_witness :
  [Demo.ex_a] !! 0%nat = Some Demo.ex_a
  /\ reaches Demo.exec_chart Demo.savechart Demo.create_thumbnail
       [Demo.ex_a] "img" true Demo.built 0 = Some Demo.loaded
  /\ cache_valid "img" Demo.ex_a Demo.loaded
  /\ hashes (final (Demo.body "img" true Demo.ex_a Demo.loaded))
     = hashes Demo.loaded.
Proof.
  assert (H0 : [Demo.ex_a] !! 0%nat = Some Demo.ex_a) by reflexivity.
  assert (H1 : reaches Demo.exec_chart Demo.savechart Demo.create_thumbnail
                 [Demo.ex_a] "img" true Demo.built 0 = Some Demo.loaded)
    by (vm_compute; reflexivity).
  destruct (cache_hit_writes_nothing
              Demo.exec_chart Demo.savechart Demo.create_thumbnail
              [Demo.ex_a] "img" true Demo.built 0 Demo.ex_a Demo.loaded
              H0 H1 demo_loaded_valid) as (Hh & _).
  exact (conj H0 (conj H1 (conj demo_loaded_valid Hh))).
Defined.

Lemma using_cached_printed_when_regenerating_witness :
  ~ cache_valid "img" Demo.ex_a Demo.fresh
  /\ exists rest,
      trace (Demo.body "img" true Demo.ex_a Demo.fresh)
      = Print "-> using cached img/a.png"
        :: Print "-> saving img/a.png" :: Exec "abc" :: rest.
Proof.
  split; [exact demo_fresh_not_valid|].
  exact (using_cached_printed_when_regenerating
           Demo.exec_chart Demo.savechart Demo.create_thumbnail
           "img" true Demo.ex_a Demo.fresh demo_fresh_not_valid).
Defined.

(** ** Thumbnails and the hash file over a run *)

Lemma dump_follows_save_app (a b : list event) :
  dump_follows_save a = true ->
  dump_follows_save (a ++ b) = dump_follows_save b.
Proof.
  remember (length a) as n eqn:Hn. revert a Hn.
  induction n as [n IH] using lt_wf_ind. intros a -> Ha.
  destruct a as [|e a]; [done|].
  destruct e; cbn [dump_follows_save app length] in *;
    try (by apply (IH (length a)); [lia|done|done]); try done.
  destruct a as [|[] a]; try done.
  cbn [app length] in *. by apply (IH (length a)); [lia|done|done].
Qed.

(** What [dump_follows_save] decides. *)
Lemma dump_follows_save_spec (t : list event) :
  dump_follows_save t = true ->
  (forall pre p post,
      t = pre ++ SaveChart p :: post ->
      exists q h post', post = DumpHashes q h :: post')
  /\ (forall pre q h post,
        t = pre ++ DumpHashes q h :: post ->
        exists p pre', pre = pre' ++ [SaveChart p]).
Proof.
  remember (length t) as n eqn:Hn. revert t Hn.
  induction n as [n IH] using lt_wf_ind. intros t -> Ht.
  destruct t as [|e t].
  { split; intros [] *; discriminate. }
  assert (Hrest : forall r, (length r < length (e :: t))%nat ->
            dump_follows_save r = true ->
            (forall pre p post,
                r = pre ++ SaveChart p :: post ->
                exists q h post', post = DumpHashes q h :: post')
            /\ (forall pre q h post,
                  r = pre ++ DumpHashes q h :: post ->
                  exists p pre', pre = pre' ++ [SaveChart p]))
    by (intros r Hr Hd; by apply (IH (length r))).
  assert (Hother :
            (match e with SaveChart _ | DumpHashes _ _ => False | _ => True end) ->
            dump_follows_save t = true ->
            (forall pre p post,
                e :: t = pre ++ SaveChart p :: post ->
                exists q h post', post = DumpHashes q h :: post')
            /\ (forall pre q h post,
                  e :: t = pre ++ DumpHashes q h :: post ->
                  exists p pre', pre = pre' ++ [SaveChart p])).
  { intros He Hd. destruct (Hrest t) as [H1 H2]; [cbn; lia|done|].
    split.
    - intros [|e' pre] p post E; cbn [app] in E; injection E as -> E;
        [done|]. by eapply H1.
    - intros [|e' pre] q h post E; cbn [app] in E; injection E as -> E;
        [done|].
      destruct (H2 _ _ _ _ E) as (p & pre' & ->).
      by exists p, (e' :: pre'). }
  destruct e; cbn [dump_follows_save] in Ht; try (by apply Hother); try done.
  destruct t as [|[] t]; try done.
  destruct (Hrest t) as [H1 H2]; [cbn; lia|done|].
  split.
  - intros [|e1 [|e2 pre]] p' post E; cbn [app] in E.
    + injection E as _ <-. eauto.
    + injection E as _ E. discriminate E.
    + injection E as _ _ E. by eapply H1.
  - intros [|e1 [|e2 pre]] q h' post E; cbn [app] in E.
    + discriminate E.
    + injection E as <- _ _ _. by exists p, [].
    + injection E as <- <- E.
      destruct (H2 _ _ _ _ E) as (p' & pre' & ->).
      by exists p', (SaveChart p :: DumpHashes p0 h :: pre').
Qed.

Lemma turn_events_dumps (d : string) (mk : bool) (ex : Example) (s : state) :
  dump_follows_save (turn_events d mk ex s) = true.
Proof.
  unfold turn_events, thumbnail_events.
  by destruct (must_regenerate d ex s), mk.
Qed.

Section RunClaims.
Context {chart : Type}.
Variable exec_chart : string -> option chart.
Variable savechart : chart -> string -> option string.
Variable create_thumbnail : content -> string -> kwargs -> option string.

Local Abbreviation body := (process_example exec_chart savechart create_thumbnail).
Local Abbreviation run := (save_example_pngs exec_chart savechart create_thumbnail).
Local Abbreviation at_turn := (reaches exec_chart savechart create_thumbnail).
Local Abbreviation events_of := (loop_events exec_chart savechart create_thumbnail).

Lemma loop_events_paired (d : string) (mk : bool) (l : list Example)
    (s : state) :
  dump_follows_save (events_of d mk l s) = true.
Proof.
  revert s. induction l as [|ex l IH]; intros s; [done|].
  cbn [loop_events].
  rewrite dump_follows_save_app by apply turn_events_dumps. apply IH.
Qed.

(** C5.  In a run with [make_thumbnails] set that reaches its end, the
    thumbnail routine is called once for every example, in order, from the
    example's image file to its thumbnail file with its gallery
    parameters, whether the turn regenerated the image or not; and the
    turn of every example ends with the thumbnail file holding what the
    routine made of the image file as the turn leaves it, which on a
    cache hit is the image the turn found. *)
Theorem thumbnail_created_for_every_example
    (examples : list Example) (image_dir : string) (s0 : state) :
  raised (run examples image_dir true s0) = None ->
  List.filter is_thumbnail (trace (run examples image_dir true s0))
  = map (fun example =>
           CreateThumbnail (image_file_of image_dir example)
             (thumb_file_of image_dir example)
             (default ∅ (galleryParameters example)))
        examples
  /\ forall i example,
      examples !! i = Some example ->
      exists s img t,
        at_turn examples image_dir true s0 i = Some s
        /\ files (final (body image_dir true example s))
             !! image_file_of image_dir example = Some img
        /\ (cache_valid image_dir example s ->
            files s !! image_file_of image_dir example = Some img)
        /\ create_thumbnail img (thumb_file_of image_dir example)
             (default ∅ (galleryParameters example)) = Some t
        /\ files (final (body image_dir true example s))
             !! thumb_file_of image_dir example = Some (Blob t).
Proof.
  intros H. split.
  - destruct (run_finished exec_chart savechart create_thumbnail
                examples image_dir true s0 H) as (-> & _).
    rewrite !List.filter_app, loop_events_thumbnails.
    cbn [List.filter is_thumbnail]. rewrite app_nil_r.
    assert (List.filter is_thumbnail (entry_events image_dir s0) = []) as ->.
    { unfold entry_events.
      by destruct (path_exists s0 image_dir),
                  (path_exists s0 (hash_file_of image_dir)). }
    cbn [app]. clear H. induction examples as [|ex l IH]; [done|].
    cbn [flat_map map thumbnail_events app]. by rewrite IH.
  - intros i example Hi.
    destruct (run_finished_turn exec_chart savechart create_thumbnail
                examples image_dir true s0 i example Hi H) as (s & Hs & Hb).
    exists s. rewrite process_example_unfold in Hb |- *.
    rewrite andthen_emit in Hb |- *. cbn [raised final] in Hb |- *.
    apply andthen_finished in Hb as Hb'. destruct Hb' as [H1 H2].
    rewrite andthen_ok by done. cbn [final].
    destruct (make_thumbnail_finished create_thumbnail image_dir example _ H2)
      as (img & t & Himg & Ht & ->).
    exists img, t. split; [exact Hs|]. split; [|split; [|split]].
    + rewrite lookup_insert_ne by apply thumb_file_not_image_file. exact Himg.
    + intros Hv%must_regenerate_false. by rewrite Hv in Himg.
    + exact Ht.
    + by rewrite lookup_insert_eq.
Qed.

(** C4, amended.  In a run that reaches its end the hash file is read at
    most once, on entry and only when it exists; it is dumped once in each
    turn that regenerates an image, right after the export, and in no
    other turn; and the last call of the run dumps the table once more,
    which is then what the hash file holds.  The calls of a turn are
    those of [turn_events]: on a regeneration the export of the image is
    followed at once by the dump of the table with the new digest. *)
Theorem hash_file_read_once_rewritten_on_regeneration
    (examples : list Example) (image_dir : string) (make_thumbnails : bool)
    (s0 : state) :
  let o := run examples image_dir make_thumbnails s0 in
  let hash_file := hash_file_of image_dir in
  raised o = None ->
  (exists loop,
      trace o = entry_events image_dir s0 ++ loop
                ++ [DumpHashes hash_file (hashes (final o))]
      /\ loop = events_of image_dir make_thumbnails examples
                  (final (enter image_dir s0))
      /\ List.filter is_load (entry_events image_dir s0)
         = (if path_exists s0 hash_file then [LoadHashes hash_file] else [])
      /\ List.filter is_dump (entry_events image_dir s0) = []
      /\ List.filter is_load loop = []
      /\ length (List.filter is_dump loop) = length (List.filter is_save loop)
      /\ dump_follows_save loop = true
      /\ (forall pre p post,
            loop = pre ++ SaveChart p :: post ->
            exists q h post', post = DumpHashes q h :: post')
      /\ (forall pre q h post,
            loop = pre ++ DumpHashes q h :: post ->
            exists p pre', pre = pre' ++ [SaveChart p]))
  /\ files (final o) !! hash_file = Some (Json (hashes (final o)))
  /\ (forall i example,
        examples !! i = Some example ->
        exists s,
          at_turn examples image_dir make_thumbnails s0 i = Some s
          /\ trace (body image_dir make_thumbnails example s)
             = turn_events image_dir make_thumbnails example s
          /\ List.filter is_dump
               (trace (body image_dir make_thumbnails example s))
             = if must_regenerate image_dir example s
               then [DumpHashes hash_file
                       (<[name example +:+ ".png" :=
                            MD5.hexdigest (code example)]> (hashes s))]
               else []).
Proof.
  intros o hash_file H. subst o hash_file.
  destruct (run_finished exec_chart savechart create_thumbnail
              examples image_dir make_thumbnails s0 H) as (Ht & Hf).
  split; [|split; [exact Hf|]].
  - eexists. split; [exact Ht|]. split; [reflexivity|].
    pose proof (loop_events_paired image_dir make_thumbnails examples
                  (final (enter image_dir s0))) as Hp.
    destruct (dump_follows_save_spec _ Hp) as [Hp1 Hp2].
    split; [|split; [|split; [|split; [|split; [|split]]]]].
    + unfold entry_events.
      by destruct (path_exists s0 image_dir),
                  (path_exists s0 (hash_file_of image_dir)).
    + unfold entry_events.
      by destruct (path_exists s0 image_dir),
                  (path_exists s0 (hash_file_of image_dir)).
    + apply loop_events_loads.
    + apply loop_events_dumps.
    + exact Hp.
    + exact Hp1.
    + exact Hp2.
  - intros i example Hi.
    destruct (run_finished_turn exec_chart savechart create_thumbnail
                examples image_dir make_thumbnails s0 i example Hi H)
      as (s & Hs & Hb).
    exists s. split; [exact Hs|].
    destruct (body_finished exec_chart savechart create_thumbnail
                image_dir make_thumbnails example s Hb) as (-> & _).
    split; [reflexivity|].
    unfold turn_events, thumbnail_events.
    by destruct (must_regenerate image_dir example s), make_thumbnails.
Qed.

End RunClaims.

(** C4 as stated fails: a run over one example whose image is cached dumps
    the table once, at the end, and not after the example. *)
Lemma hash_file_not_rewritten_after_cache_hit :
  let o := Demo.run [Demo.ex_a] "img" true Demo.built in
  raised o = None
  /\ trace o = [LoadHashes "img/_image_hashes.json";
                Print "-> using cached img/a.png";
                CreateThumbnail "img/a.png" "img/a-thumb.png" ∅;
                DumpHashes "img/_image_hashes.json"
                  {["a.png" := "900150983cd24fb0d6963f7d28e17f72"]}]
  /\ length (List.filter is_dump (trace o)) <> S (length [Demo.ex_a]).
Proof.
  cbv zeta. split; [vm_compute; reflexivity|].
  split; [vm_compute; reflexivity|].
  intros E. vm_compute in E. discriminate E.
Qed.

Lemma thumbnail_created_for_every_example_witness :
  raised (Demo.run [Demo.ex_a; Demo.ex "b" "xyz"] "img" true Demo.built) = None
  /\ List.filter is_thumbnail
       (trace (Demo.run [Demo.ex_a; Demo.ex "b" "xyz"] "img" true Demo.built))
     = [CreateThumbnail "img/a.png" "img/a-thumb.png" ∅;
        CreateThumbnail "img/b.png" "img/b-thumb.png" ∅]
  /\ exists s img t,
      reaches Demo.exec_chart Demo.savechart Demo.create_thumbnail
        [Demo.ex_a; Demo.ex "b" "xyz"] "img" true Demo.built 1 = Some s
      /\ files (final (Demo.body "img" true (Demo.ex "b" "xyz") s))
           !! "img/b.png" = Some img
      /\ Demo.create_thumbnail img "img/b-thumb.png" ∅ = Some t
      /\ files (final (Demo.body "img" true (Demo.ex "b" "xyz") s))
           !! "img/b-thumb.png" = Some (Blob t).
Proof.
  assert (H : raised (Demo.run [Demo.ex_a; Demo.ex "b" "xyz"] "img" true
                        Demo.built) = None) by (vm_compute; reflexivity).
  destruct (thumbnail_created_for_every_example
              Demo.exec_chart Demo.savechart Demo.create_thumbnail
              [Demo.ex_a; Demo.ex "b" "xyz"] "img" Demo.built H) as [Hc Ht].
  destruct (Ht 1%nat (Demo.ex "b" "xyz") eq_refl)
    as (s & img & t & Hs & Hi & _ & Hm & Hf).
  exact (conj H (conj Hc
           (ex_intro _ s (ex_intro _ img (ex_intro _ t
              (conj Hs (conj Hi (conj Hm Hf)))))))).
Defined.

Lemma hash_file_read_once_rewritten_on_regeneration_witness :
  raised (Demo.run [Demo.ex_a; Demo.ex "b" "xyz"] "img" true Demo.built) = None
  /\ files (final (Demo.run [Demo.ex_a; Demo.ex "b" "xyz"] "img" true Demo.built))
       !! "img/_image_hashes.json"
     = Some (Json (hashes (final (Demo.run [Demo.ex_a; Demo.ex "b" "xyz"]
                                    "img" true Demo.built))))
  /\ exists s,
      reaches Demo.exec_chart Demo.savechart Demo.create_thumbnail
        [Demo.ex_a; Demo.ex "b" "xyz"] "img" true Demo.built 1 = Some s
      /\ trace (Demo.body "img" true (Demo.ex "b" "xyz") s)
         = turn_events "img" true (Demo.ex "b" "xyz") s.
Proof.
  assert (H : raised (Demo.run [Demo.ex_a; Demo.ex "b" "xyz"] "img" true
                        Demo.built) = None) by (vm_compute; reflexivity).
  destruct (hash_file_read_once_rewritten_on_regeneration
              Demo.exec_chart Demo.savechart Demo.create_thumbnail
              [Demo.ex_a; Demo.ex "b" "xyz"] "img" true Demo.built H)
    as (_ & Hf & Ht).
  destruct (Ht 1%nat (Demo.ex "b" "xyz") eq_refl) as (s & Hs & Hb & _).
  exact (conj H (conj Hf (ex_intro _ s (conj Hs Hb)))).
Defined.

(** ** Turn by turn *)

Lemma app_inj_r (a b c : string) : a +:+ c = b +:+ c -> a = b.
Proof.
  revert b. induction a as [|x a IH]; intros [|y b] E.
  - reflexivity.
  - apply (f_equal String.length) in E.
    rewrite app_cons in E. cbn [String.length] in E.
    rewrite app_nil_l, app_length_str in E. lia.
  - apply (f_equal String.length) in E.
    rewrite app_cons in E. cbn [String.length] in E.
    rewrite app_nil_l, app_length_str in E. lia.
  - rewrite !app_cons in E. injection E as -> E. f_equal. by apply IH.
Qed.

(** The test looks at the name, the code, the table entry and the
    existence of the image file, and at nothing else. *)
Lemma must_regenerate_ext (d : string) (e1 e2 : Example) (s1 s2 : state) :
  name e1 = name e2 ->
  code e1 = code e2 ->
  hashes s1 !! (name e1 +:+ ".png") = hashes s2 !! (name e2 +:+ ".png") ->
  path_exists s1 (image_file_of d e1) = path_exists s2 (image_file_of d e2) ->
  must_regenerate d e1 s1 = must_regenerate d e2 s2.
Proof.
  intros Hn Hc Hh Hp. unfold must_regenerate. by rewrite Hh, Hp, Hc.
Qed.

Lemma must_regenerate_same_view (d : string) (e1 e2 : Example) (s1 s2 : state) :
  same_key e1 e2 -> same_view s1 s2 ->
  must_regenerate d e1 s1 = must_regenerate d e2 s2.
Proof.
  intros [Hn Hc] (Hh & Hf & Hd). apply must_regenerate_ext; try done.
  - by rewrite Hh, Hn.
  - rewrite !path_exists_dom, Hf, Hd. unfold image_file_of. by rewrite Hn.
Qed.

Section TurnByTurn.
Context {chart : Type}.
Variable exec_chart : string -> option chart.
Variable savechart : chart -> string -> option string.
Variable create_thumbnail : content -> string -> kwargs -> option string.

Local Abbreviation body := (process_example exec_chart savechart create_thumbnail).
Local Abbreviation run := (save_example_pngs exec_chart savechart create_thumbnail).
Local Abbreviation run_to := (run_until exec_chart savechart create_thumbnail).
Local Abbreviation at_turn := (reaches exec_chart savechart create_thumbnail).

Lemma at_turn_0 (examples : list Example) (d : string) (mk : bool)
    (s0 s : state) :
  at_turn examples d mk s0 0 = Some s ->
  raised (enter d s0) = None /\ s = final (enter d s0).
Proof.
  unfold reaches. rewrite run_until_enter. cbn [take for_each].
  unfold andthen, skip. destruct (enter d s0) as [t s' [x|]]; cbn; [done|].
  intros [= <-]. done.
Qed.

Lemma at_turn_S (examples : list Example) (d : string) (mk : bool)
    (s0 s' : state) (i : nat) (ex : Example) :
  examples !! i = Some ex ->
  at_turn examples d mk s0 (S i) = Some s' ->
  exists s, at_turn examples d mk s0 i = Some s
            /\ raised (body d mk ex s) = None
            /\ s' = final (body d mk ex s).
Proof.
  intros Hi. unfold reaches. rewrite !run_until_enter.
  rewrite (take_S_r _ _ _ Hi).
  rewrite (andthen_ext _ _ _ _ (for_each_app _ _ _)).
  rewrite <- andthen_assoc.
  set (P := enter d >> for_each (body d mk) (take i examples)).
  destruct (raised ((P >> for_each (body d mk) [ex]) s0)) eqn:E; [done|].
  intros [= <-].
  apply andthen_finished in E as E'. destruct E' as [E1 E2].
  rewrite E1. eexists. split; [done|].
  cbn [for_each] in E2. apply andthen_finished in E2 as [E2 _].
  split; [exact E2|].
  rewrite andthen_ok by done. cbn [final for_each].
  rewrite andthen_ok by done. done.
Qed.

Lemma at_turn_ge (examples : list Example) (d : string) (mk : bool)
    (s0 : state) (i : nat) :
  examples !! i = None ->
  at_turn examples d mk s0 (S i) = at_turn examples d mk s0 i.
Proof.
  intros Hi. apply lookup_ge_None in Hi. unfold reaches, run_until.
  by rewrite !take_ge by lia.
Qed.

(** Starting without a hash file, the table only ever holds entries for
    the examples already processed. *)
Lemma table_of_processed (examples : list Example) (d : string) (mk : bool)
    (s0 : state) (i : nat) (s : state) :
  path_exists s0 (hash_file_of d) = false ->
  at_turn examples d mk s0 i = Some s ->
  forall k, is_Some (hashes s !! k) ->
            exists e, e ∈ take i examples /\ k = name e +:+ ".png".
Proof.
  intros Hm. revert s. induction i as [|i IH]; intros s Hs k Hk.
  - apply at_turn_0 in Hs as [Hr ->].
    destruct (enter_any d s0) as (_ & _ & Hh & _). rewrite (Hh Hr) in Hk.
    apply orb_false_iff in Hm as [Hm _]. apply bool_decide_eq_false_1 in Hm.
    destruct (files s0 !! hash_file_of d) as [[]|] eqn:E;
      try (destruct Hm; eauto; fail);
      rewrite lookup_empty in Hk; by destruct Hk.
  - destruct (examples !! i) as [ex|] eqn:Hi.
    + apply (at_turn_S _ _ _ _ _ _ _ Hi) in Hs as (s1 & Hs1 & Hr & ->).
      rewrite (take_S_r _ _ _ Hi).
      destruct (body_finished exec_chart savechart create_thumbnail
                  d mk ex s1 Hr) as (_ & Hh & _).
      rewrite Hh in Hk.
      destruct (must_regenerate d ex s1).
      * destruct (decide (k = name ex +:+ ".png")) as [->|Hne].
        -- exists ex. split; [set_solver|done].
        -- rewrite lookup_insert_ne in Hk by done.
           destruct (IH _ Hs1 _ Hk) as (e & He & ->).
           exists e. split; [set_solver|done].
      * destruct (IH _ Hs1 _ Hk) as (e & He & ->).
        exists e. split; [set_solver|done].
    + rewrite at_turn_ge in Hs by done.
      destruct (IH _ Hs _ Hk) as (e & He & ->).
      exists e. split; [|done].
      apply lookup_ge_None in Hi. rewrite take_ge in He |- * by lia. done.
Qed.

(** Two runs over lists that agree on names and code, from one state,
    see the same table and the same paths at every turn both reach. *)
Lemma turns_same_view (exs1 exs2 : list Example) (d : string) (mk : bool)
    (s0 : state) (i : nat) (s1 s2 : state) :
  Forall2 same_key exs1 exs2 ->
  at_turn exs1 d mk s0 i = Some s1 ->
  at_turn exs2 d mk s0 i = Some s2 ->
  same_view s1 s2.
Proof.
  intros HF. revert s1 s2. induction i as [|i IH]; intros s1 s2 H1 H2.
  - apply at_turn_0 in H1 as [_ ->]. apply at_turn_0 in H2 as [_ ->]. done.
  - destruct (exs1 !! i) as [e1|] eqn:Hi1.
    + destruct (Forall2_lookup_l _ _ _ _ _ HF Hi1) as (e2 & Hi2 & Hk).
      apply (at_turn_S _ _ _ _ _ _ _ Hi1) in H1 as (t1 & Ht1 & Hr1 & ->).
      apply (at_turn_S _ _ _ _ _ _ _ Hi2) in H2 as (t2 & Ht2 & Hr2 & ->).
      specialize (IH _ _ Ht1 Ht2).
      destruct (body_finished exec_chart savechart create_thumbnail
                  d mk e1 t1 Hr1) as (_ & Hh1 & Hd1 & Hf1).
      destruct (body_finished exec_chart savechart create_thumbnail
                  d mk e2 t2 Hr2) as (_ & Hh2 & Hd2 & Hf2).
      rewrite (must_regenerate_same_view d e1 e2 t1 t2 Hk IH) in Hh1, Hf1.
      destruct Hk as [Hn Hc]. destruct IH as (Hh & Hf & Hd).
      unfold same_view, thumb_file_of, image_file_of in *.
      rewrite Hh1, Hh2, Hd1, Hd2, Hf1, Hf2, Hn, Hc, Hh, Hf, Hd. done.
    + assert (exs2 !! i = None) as Hi2.
      { apply lookup_ge_None. apply lookup_ge_None in Hi1.
        by rewrite <- (Forall2_length _ _ _ HF). }
      rewrite at_turn_ge in H1, H2 by done. eauto.
Qed.

End TurnByTurn.

(** ** A missing or damaged hash file; runs that differ in other keys *)

Lemma guard_passes_bool (d : string) (s0 : state) :
  guard_passes d s0
  <-> path_exists s0 d || bool_decide (makedirs_error d s0 = None) = true.
Proof.
  unfold guard_passes. rewrite orb_true_iff, bool_decide_eq_true. done.
Qed.

Lemma enter_missing (d : string) (s0 : state) :
  path_exists s0 (hash_file_of d) = false -> guard_passes d s0 ->
  raised (enter d s0) = None.
Proof.
  intros Hh Hg%guard_passes_bool. by rewrite enter_raised, Hg, Hh.
Qed.

Lemma enter_corrupt (d : string) (s0 : state) (b : string) :
  files s0 !! hash_file_of d = Some (Blob b) -> guard_passes d s0 ->
  raised (enter d s0) = Some (decode_error b).
Proof.
  intros Hb Hg%guard_passes_bool.
  assert (Hh : path_exists s0 (hash_file_of d) = true).
  { unfold path_exists. rewrite Hb. apply orb_true_iff. left.
    apply bool_decide_eq_true_2. eauto. }
  by rewrite enter_raised, Hg, Hh, Hb.
Qed.

(** When the image directory is missing and cannot be made, the run ends
    at the [makedirs] call with its error, and nothing has changed. *)
Lemma enter_blocked (d : string) (s0 : state) (x : exn) :
  path_exists s0 d = false -> makedirs_error d s0 = Some x ->
  enter d s0 = mkOutcome [Makedirs d] s0 (Some x).
Proof.
  intros Hd Hm. rewrite enter_guard.
  destruct (guard_spec d s0) as (_ & _ & _ & _ & Ht & Hr & _ & _ & Hs).
  rewrite Hd in Ht, Hr. rewrite Hm in Hr.
  rewrite (andthen_raised _ _ _ x Hr).
  destruct (guard d s0) as [t s r]; cbn [trace raised final] in *.
  rewrite Ht, Hr, Hs; [done|by rewrite Hr].
Qed.

Section Degraded.
Context {chart : Type}.
Variable exec_chart : string -> option chart.
Variable savechart : chart -> string -> option string.
Variable create_thumbnail : content -> string -> kwargs -> option string.

Local Abbreviation body := (process_example exec_chart savechart create_thumbnail).
Local Abbreviation run := (save_example_pngs exec_chart savechart create_thumbnail).
Local Abbreviation at_turn := (reaches exec_chart savechart create_thumbnail).

(** C3, amended.  Without a hash file, and with an image directory that
    exists or can be made, the loop is entered with an empty table, and
    every example whose name has not come up earlier in the list is
    regenerated; when the directory is missing and cannot be made, the
    run ends at the [makedirs] call with its error.  A hash file that
    does not decode is no such case: the decoding error (of the bytes, or
    of the JSON text) ends the run on entry, before any example is
    looked at, with the files as they were. *)
Theorem missing_hash_file_is_empty_cache
    (examples : list Example) (image_dir : string) (make_thumbnails : bool)
    (s0 : state) :
  (path_exists s0 (hash_file_of image_dir) = false ->
   (guard_passes image_dir s0 ->
    exists s, at_turn examples image_dir make_thumbnails s0 0 = Some s
              /\ hashes s = ∅)
   /\ (forall x,
        path_exists s0 image_dir = false ->
        makedirs_error image_dir s0 = Some x ->
        let o := run examples image_dir make_thumbnails s0 in
        raised o = Some x /\ trace o = [Makedirs image_dir] /\ final o = s0)
   /\ forall i example s,
       examples !! i = Some example ->
       at_turn examples image_dir make_thumbnails s0 i = Some s ->
       name example ∉ map name (take i examples) ->
       must_regenerate image_dir example s = true
       /\ Exec (code example)
          ∈ trace (body image_dir make_thumbnails example s))
  /\ (forall b,
       files s0 !! hash_file_of image_dir = Some (Blob b) ->
       guard_passes image_dir s0 ->
       let o := run examples image_dir make_thumbnails s0 in
       raised o = Some (decode_error b)
       /\ (raised o = Some JSONDecodeError \/ raised o = Some UnicodeDecodeError)
       /\ trace o = entry_events image_dir s0
       /\ files (final o) = files s0).
Proof.
  split.
  - intros Hm. split; [|split].
    + intros Hg. pose proof (enter_missing image_dir s0 Hm Hg) as Hr.
      exists (final (enter image_dir s0)). split.
      * unfold reaches. rewrite run_until_enter. cbn [take for_each].
        rewrite andthen_ok by done. cbn [raised skip final]. done.
      * destruct (enter_any image_dir s0) as (_ & _ & Hh & _).
        rewrite (Hh Hr).
        apply orb_false_iff in Hm as [Hm _]. apply bool_decide_eq_false_1 in Hm.
        by destruct (files s0 !! hash_file_of image_dir) as [[]|];
          [destruct Hm; eauto..|].
    + intros x Hd Hx o. subst o.
      rewrite run_enter, (andthen_raised _ _ _ x);
        by rewrite (enter_blocked image_dir s0 x Hd Hx).
    + intros i example s Hi Hs Hfresh.
      assert (Hn : ~ cache_valid image_dir example s).
      { intros [Hv _].
        destruct (table_of_processed exec_chart savechart create_thumbnail
                    examples image_dir make_thumbnails s0 i s Hm Hs
                    (name example +:+ ".png")) as (e & He & Heq); [eauto|].
        apply app_inj_r in Heq. apply Hfresh.
        rewrite Heq. apply list_elem_of_fmap. eauto. }
      split; [by apply must_regenerate_true | by apply body_miss_exec].
  - intros b Hb Hg o. subst o.
    pose proof (enter_corrupt image_dir s0 b Hb Hg) as Hr.
    rewrite run_enter, (andthen_raised _ _ _ _ Hr).
    destruct (enter_any image_dir s0) as (Ht & Hf & _).
    split; [exact Hr|]. split; [|by auto].
    rewrite Hr. unfold decode_error. destruct (utf8_valid _); auto.
Qed.

(** C10.  The test of a turn is a function of the example's name and code,
    of the table entry for its output filename and of the existence of
    its image file.  Hence two runs from one state, over lists of examples
    that agree in names and code, take the same decision at every turn
    both reach, and make regeneration calls in the same turns. *)
Theorem regeneration_decision_ignores_other_keys :
  (forall image_dir e1 e2 s1 s2,
      name e1 = name e2 ->
      code e1 = code e2 ->
      hashes s1 !! (name e1 +:+ ".png") = hashes s2 !! (name e2 +:+ ".png") ->
      path_exists s1 (image_file_of image_dir e1)
      = path_exists s2 (image_file_of image_dir e2) ->
      must_regenerate image_dir e1 s1 = must_regenerate image_dir e2 s2)
  /\ (forall exs1 exs2 image_dir make_thumbnails s0 i e1 e2 s1 s2,
      Forall2 same_key exs1 exs2 ->
      exs1 !! i = Some e1 ->
      exs2 !! i = Some e2 ->
      at_turn exs1 image_dir make_thumbnails s0 i = Some s1 ->
      at_turn exs2 image_dir make_thumbnails s0 i = Some s2 ->
      must_regenerate image_dir e1 s1 = must_regenerate image_dir e2 s2
      /\ (Forall (fun e => regenerating e = false)
                 (trace (body image_dir make_thumbnails e1 s1))
          <-> Forall (fun e => regenerating e = false)
                     (trace (body image_dir make_thumbnails e2 s2)))).
Proof.
  split; [exact must_regenerate_ext|].
  intros exs1 exs2 d mk s0 i e1 e2 s1 s2 HF H1 H2 Hs1 Hs2.
  destruct (Forall2_lookup_l _ _ _ _ _ HF H1) as (e2' & H2' & Hk).
  assert (e2' = e2) by congruence. subst e2'.
  pose proof (turns_same_view exec_chart savechart create_thumbnail
                exs1 exs2 d mk s0 i s1 s2 HF Hs1 Hs2) as Hv.
  pose proof (must_regenerate_same_view d e1 e2 s1 s2 Hk Hv) as Hm.
  split; [exact Hm|].
  rewrite <- !body_skips_iff, <- !must_regenerate_false, Hm. done.
Qed.

End Degraded.

(** C3 as stated fails for a hash file that does not decode: the run ends
    with the decoding error after reading the file, and regenerates
    nothing. *)
Lemma corrupt_hash_file_raises :
  let o := Demo.run [Demo.ex_a] "img" true Demo.corrupt in
  raised o = Some JSONDecodeError
  /\ trace o = [LoadHashes "img/_image_hashes.json"]
  /\ final o = Demo.corrupt.
Proof. vm_compute. done. Qed.

Lemma missing_hash_file_is_empty_cache_witness :
  path_exists Demo.empty_world (hash_file_of "img") = false
  /\ guard_passes "img" Demo.empty_world
  /\ [Demo.ex_a] !! 0%nat = Some Demo.ex_a
  /\ reaches Demo.exec_chart Demo.savechart Demo.create_thumbnail
       [Demo.ex_a] "img" true Demo.empty_world 0 = Some Demo.fresh
  /\ (name Demo.ex_a ∉ map name (take 0 [Demo.ex_a]))
  /\ must_regenerate "img" Demo.ex_a Demo.fresh = true
  /\ (exists s, reaches Demo.exec_chart Demo.savechart Demo.create_thumbnail
                  [Demo.ex_a] "img" true Demo.empty_world 0 = Some s
                /\ hashes s = ∅)
  /\ path_exists Demo.empty_world "" = false
  /\ makedirs_error "" Demo.empty_world = Some FileNotFoundError
  /\ raised (Demo.run [Demo.ex_a] "" true Demo.empty_world)
     = Some FileNotFoundError
  /\ files Demo.corrupt !! hash_file_of "img" = Some (Blob "{")
  /\ guard_passes "img" Demo.corrupt
  /\ raised (Demo.run [Demo.ex_a] "img" true Demo.corrupt)
     = Some (decode_error "{").
Proof.
  assert (H0 : path_exists Demo.empty_world (hash_file_of "img") = false)
    by (vm_compute; reflexivity).
  assert (G0 : guard_passes "img" Demo.empty_world)
    by (right; vm_compute; reflexivity).
  assert (H1 : [Demo.ex_a] !! 0%nat = Some Demo.ex_a) by reflexivity.
  assert (H2 : reaches Demo.exec_chart Demo.savechart Demo.create_thumbnail
                 [Demo.ex_a] "img" true Demo.empty_world 0 = Some Demo.fresh)
    by (vm_compute; reflexivity).
  assert (H3 : name Demo.ex_a ∉ map name (take 0 [Demo.ex_a]))
    by (cbn [take map]; apply not_elem_of_nil).
  assert (H4 : files Demo.corrupt !! hash_file_of "img" = Some (Blob "{"))
    by (vm_compute; reflexivity).
  assert (G4 : guard_passes "img" Demo.corrupt)
    by (left; vm_compute; reflexivity).
  assert (H5 : path_exists Demo.empty_world "" = false)
    by (vm_compute; reflexivity).
  assert (H6 : makedirs_error "" Demo.empty_world = Some FileNotFoundError)
    by (vm_compute; reflexivity).
  assert (H7 : path_exists Demo.empty_world (hash_file_of "") = false)
    by (vm_compute; reflexivity).
  pose proof (missing_hash_file_is_empty_cache
                Demo.exec_chart Demo.savechart Demo.create_thumbnail
                [Demo.ex_a] "img" true Demo.empty_world) as [Ha _].
  pose proof (missing_hash_file_is_empty_cache
                Demo.exec_chart Demo.savechart Demo.create_thumbnail
                [Demo.ex_a] "" true Demo.empty_world) as [Hc _].
  pose proof (missing_hash_file_is_empty_cache
                Demo.exec_chart Demo.savechart Demo.create_thumbnail
                [Demo.ex_a] "img" true Demo.corrupt) as [_ Hb].
  destruct (Ha H0) as (He & _ & Ha').
  destruct (Hc H7) as (_ & Hc' & _).
  destruct (Ha' 0%nat Demo.ex_a Demo.fresh H1 H2 H3) as [Hm _].
  destruct (Hb "{" H4 G4) as [Hr _].
  destruct (Hc' FileNotFoundError H5 H6) as [Hx _].
  exact (conj H0 (conj G0 (conj H1 (conj H2 (conj H3 (conj Hm
          (conj (He G0) (conj H5 (conj H6 (conj Hx
          (conj H4 (conj G4 Hr)))))))))))).
Defined.

Lemma regeneration_decision_ignores_other_keys_witness :
  let e2 := mkExample "a" "other.py" "A docstring" "Bar Charts" "abc" 7
              (Some {["size" := PInt 3]}) "gallery" false None None in
  Forall2 same_key [Demo.ex_a] [e2]
  /\ reaches Demo.exec_chart Demo.savechart Demo.create_thumbnail
       [Demo.ex_a] "img" true Demo.built 0 = Some Demo.loaded
  /\ reaches Demo.exec_chart Demo.savechart Demo.create_thumbnail
       [e2] "img" true Demo.built 0 = Some Demo.loaded
  /\ must_regenerate "img" Demo.ex_a Demo.loaded
     = must_regenerate "img" e2 Demo.loaded.
Proof.
  intros e2.
  assert (HF : Forall2 same_key [Demo.ex_a] [e2])
    by (repeat constructor).
  assert (H1 : reaches Demo.exec_chart Demo.savechart Demo.create_thumbnail
                 [Demo.ex_a] "img" true Demo.built 0 = Some Demo.loaded)
    by (vm_compute; reflexivity).
  assert (H2 : reaches Demo.exec_chart Demo.savechart Demo.create_thumbnail
                 [e2] "img" true Demo.built 0 = Some Demo.loaded)
    by (vm_compute; reflexivity).
  destruct (proj2 (regeneration_decision_ignores_other_keys
                     Demo.exec_chart Demo.savechart Demo.create_thumbnail)
              [Demo.ex_a] [e2] "img" true Demo.built 0%nat Demo.ex_a e2
              Demo.loaded Demo.loaded HF eq_refl eq_refl H1 H2) as [Hm _].
  exact (conj HF (conj H1 (conj H2 Hm))).
Defined.

(** ** Texts in order *)

Lemma str_le_refl (a : string) : str_le a a.
Proof.
  unfold str_le. destruct (String.leb_total a a) as [H|H]; exact H.
Qed.

Lemma str_le_trans (a b c : string) : str_le a b -> str_le b c -> str_le a c.
Proof.
  unfold str_le. intros H1 H2.
  apply Is_true_true. apply Is_true_true in H1, H2.
  exact (transitivity (R := String.le) H1 H2).
Qed.

Lemma str_le_total (a b : string) : String.leb a b = false -> str_le b a.
Proof.
  intros H. destruct (String.leb_total a b) as [H'|H']; [congruence | exact H'].
Qed.

Lemma compare_refl (a : string) : String.compare a a = Eq.
Proof.
  pose proof (String.compare_antisym a a) as H.
  destruct (String.compare a a); simpl in H; congruence.
Qed.

Lemma str_lt_iff (a b : string) : str_lt a b <-> str_le a b /\ a <> b.
Proof.
  unfold str_lt, str_le, String.ltb, String.leb. split.
  - intros H. destruct (String.compare a b) eqn:E; try discriminate.
    split; [reflexivity|]. intros ->. rewrite compare_refl in E. discriminate.
  - intros [H Hne]. destruct (String.compare a b) eqn:E; try discriminate.
    + apply String.compare_eq_iff in E. contradiction.
    + reflexivity.
Qed.

Lemma str_lt_irrefl (a : string) : ~ str_lt a a.
Proof. rewrite str_lt_iff. intros [_ H]. by apply H. Qed.

Lemma str_le_lt_trans (a b c : string) : str_le a b -> str_lt b c -> str_lt a c.
Proof.
  rewrite !str_lt_iff. intros H1 [H2 Hne]. split.
  - exact (str_le_trans _ _ _ H1 H2).
  - intros ->. apply Hne. apply String.leb_antisym; assumption.
Qed.

Lemma str_lt_trans (a b c : string) : str_lt a b -> str_lt b c -> str_lt a c.
Proof.
  intros H1 H2. apply str_lt_iff in H1 as [H1 _].
  exact (str_le_lt_trans _ _ _ H1 H2).
Qed.

(** ** sorted: ordered, a permutation, stable *)

Section Sorting.
Context {A : Type} (key : A -> string).

Local Abbreviation key_le := (key_le key).

Lemma insert_by_perm (x : A) (l : list A) : insert_by key x l ≡ₚ x :: l.
Proof.
  induction l as [|y r IH]; simpl; [done|].
  destruct (String.leb (key x) (key y)); [done|].
  rewrite IH. apply Permutation_swap.
Qed.

Lemma sorted_by_perm (l : list A) : sorted_by key l ≡ₚ l.
Proof.
  induction l as [|x l IH]; simpl; [done|].
  change (insert_by key x (sorted_by key l) ≡ₚ x :: l).
  by rewrite insert_by_perm, IH.
Qed.

Lemma insert_by_hd (x y : A) (l : list A) :
  key_le y x -> HdRel key_le y l -> HdRel key_le y (insert_by key x l).
Proof.
  intros Hyx Hl. destruct l as [|z r]; simpl; [by constructor|].
  destruct (String.leb (key x) (key z)); constructor; [done|].
  by inversion Hl.
Qed.

Lemma insert_by_sorted (x : A) (l : list A) :
  Sorted key_le l -> Sorted key_le (insert_by key x l).
Proof.
  induction 1 as [|y r Hr IH Hy]; simpl; [by repeat constructor|].
  destruct (String.leb (key x) (key y)) eqn:E.
  - constructor; [by constructor|]. by constructor.
  - constructor; [exact IH|].
    apply insert_by_hd; [|exact Hy]. by apply str_le_total.
Qed.

Lemma sorted_by_sorted (l : list A) : Sorted key_le (sorted_by key l).
Proof.
  induction l as [|x l IH]; simpl; [constructor|].
  by apply insert_by_sorted.
Qed.

(** Elements with one key keep the order they came in. *)
Lemma insert_by_stable (k : string) (x : A) (l : list A) :
  List.filter (has_key key k) (insert_by key x l)
  = List.filter (has_key key k) (x :: l).
Proof.
  induction l as [|y r IH]; [done|]. cbn [insert_by].
  destruct (String.leb (key x) (key y)) eqn:E; [done|].
  cbn [List.filter] in *. rewrite IH. unfold has_key.
  destruct (String.eqb_spec (key x) k) as [Hx|Hx];
    destruct (String.eqb_spec (key y) k) as [Hy|Hy]; try done.
  rewrite Hx, Hy in E. pose proof (str_le_refl k) as Hk.
  unfold str_le in Hk. congruence.
Qed.

Lemma sorted_by_stable (k : string) (l : list A) :
  List.filter (has_key key k) (sorted_by key l) = List.filter (has_key key k) l.
Proof.
  induction l as [|x l IH]; [done|].
  change (sorted_by key (x :: l)) with (insert_by key x (sorted_by key l)).
  rewrite insert_by_stable. cbn [List.filter]. by rewrite IH.
Qed.

(** ** groupby *)

Lemma group_runs_concat (l : list A) :
  concat (map snd (group_runs key l)) = l.
Proof.
  induction l as [|x r IH]; [done|]. cbn [group_runs].
  destruct (group_runs key r) as [|[k g] gs]; cbn in *.
  - by rewrite <- IH.
  - destruct (String.eqb (key x) k); cbn; by rewrite <- IH.
Qed.

Lemma group_runs_keys (l : list A) :
  Forall (fun kg => snd kg <> [] /\ Forall (fun a => key a = fst kg) (snd kg))
         (group_runs key l).
Proof.
  induction l as [|x r IH]; [constructor|]. cbn [group_runs].
  destruct (group_runs key r) as [|[k g] gs].
  - repeat constructor. done.
  - inversion IH as [|? ? [Hg Hk] Hgs]; subst.
    destruct (String.eqb_spec (key x) k) as [E|E].
    + constructor; [|done]. split; [done|]. by constructor.
    + constructor; [|done]. split; [done|]. by repeat constructor.
Qed.

Lemma group_runs_head (x : A) (r : list A) :
  head (map fst (group_runs key (x :: r))) = Some (key x).
Proof.
  cbn [group_runs]. destruct (group_runs key r) as [|[k g] gs]; [done|].
  destruct (String.eqb_spec (key x) k) as [E|E]; cbn; congruence.
Qed.

(** On a sorted list the runs have strictly ascending keys. *)
Lemma group_runs_sorted (l : list A) :
  Sorted key_le l -> Sorted str_lt (map fst (group_runs key l)).
Proof.
  induction 1 as [|x r Hr IH Hx]; [constructor|].
  pose proof (group_runs_head x r) as Hhd. cbn [group_runs] in *.
  destruct r as [|y r'].
  - cbn. repeat constructor.
  - pose proof (group_runs_head y r') as Hy.
    destruct (group_runs key (y :: r')) as [|[k g] gs]; [done|].
    cbn in Hy. injection Hy as ->.
    destruct (String.eqb_spec (key x) (key y)) as [E|E]; [exact IH|].
    cbn. constructor; [exact IH|]. constructor.
    apply str_lt_iff. split; [|done]. by inversion Hx.
Qed.

Lemma sorted_lt_strongly (ks : list string) :
  Sorted str_lt ks -> StronglySorted str_lt ks.
Proof.
  apply Sorted_StronglySorted. intros a b c. apply str_lt_trans.
Qed.

Lemma strongly_sorted_lt_NoDup (ks : list string) :
  StronglySorted str_lt ks -> NoDup ks.
Proof.
  induction 1 as [|k ks Hs IH Hk]; constructor; [|done].
  intros Hin. rewrite Forall_forall in Hk.
  exact (str_lt_irrefl k (Hk k Hin)).
Qed.

(** With distinct keys, a group is all the elements that have its key. *)
Lemma groups_filter (G : list (string * list A)) (k : string) (g : list A) :
  NoDup (map fst G) ->
  Forall (fun kg => Forall (fun a => key a = fst kg) (snd kg)) G ->
  (k, g) ∈ G ->
  List.filter (has_key key k) (concat (map snd G)) = g.
Proof.
  induction G as [|[k' g'] G IH]; intros Hnd Hall Hin.
  - by apply elem_of_nil in Hin.
  - cbn [map fst snd concat] in *. rewrite List.filter_app.
    apply NoDup_cons in Hnd as [Hk' Hnd].
    inversion Hall as [|? ? Hg' HG]; subst. cbn [fst snd] in Hg'.
    apply elem_of_cons in Hin as [[= -> ->]|Hin].
    + assert (List.filter (has_key key k') g' = g') as ->.
      { clear -Hg'. induction Hg' as [|a g Ha Hg IH]; [done|].
        cbn [List.filter]. unfold has_key at 1. rewrite Ha, String.eqb_refl.
        by rewrite IH. }
      assert (List.filter (has_key key k') (concat (map snd G)) = []) as ->;
        [|by rewrite app_nil_r].
      clear -Hk' HG. induction G as [|[k2 g2] G IH]; [done|].
      cbn [map fst snd concat] in *. rewrite List.filter_app.
      inversion HG as [|? ? Hg2 HG']; subst. cbn [fst snd] in Hg2.
      rewrite IH by (try done; set_solver). rewrite app_nil_r.
      assert (k2 <> k') as Hne by set_solver.
      clear -Hg2 Hne. induction Hg2 as [|a g Ha Hg IH]; [done|].
      cbn [List.filter]. unfold has_key at 1. rewrite Ha.
      destruct (String.eqb_spec k2 k'); [done|exact IH].
    + rewrite (IH Hnd HG Hin).
      assert (List.filter (has_key key k) g' = []) as ->; [|done].
      assert (k' <> k) as Hne.
      { intros ->. apply Hk'. apply list_elem_of_fmap. by exists (k, g). }
      clear -Hg' Hne. induction Hg' as [|a g0 Ha Hg IH]; [done|].
      cbn [List.filter]. unfold has_key at 1. rewrite Ha.
      destruct (String.eqb_spec k' k); [done|exact IH].
Qed.

Lemma groupby_sorted (l : list A) :
  StronglySorted str_lt (map fst (groupby key l)).
Proof.
  apply sorted_lt_strongly, group_runs_sorted, sorted_by_sorted.
Qed.

Lemma groupby_NoDup (l : list A) : NoDup (map fst (groupby key l)).
Proof. apply strongly_sorted_lt_NoDup, groupby_sorted. Qed.

Lemma groupby_perm (l : list A) : concat (map snd (groupby key l)) ≡ₚ l.
Proof. unfold groupby. rewrite group_runs_concat. apply sorted_by_perm. Qed.

(** A group of [groupby] is not empty and holds the elements with its
    key, in the order of the list. *)
Lemma groupby_group (l : list A) (k : string) (g : list A) :
  (k, g) ∈ groupby key l ->
  g <> [] /\ g = List.filter (has_key key k) l.
Proof.
  intros Hin. pose proof (group_runs_keys (sorted_by key l)) as Hall.
  split.
  - rewrite Forall_forall in Hall. by destruct (Hall _ Hin).
  - rewrite <- (sorted_by_stable k l).
    rewrite <- (group_runs_concat (sorted_by key l)) at 1.
    symmetry. apply groups_filter; [apply groupby_NoDup| |exact Hin].
    eapply Forall_impl; [exact Hall|]. by intros ? [_ ?].
Qed.

(** Every key of the list has its group. *)
Lemma groupby_covers (l : list A) (a : A) :
  a ∈ l -> exists g, (key a, g) ∈ groupby key l /\ a ∈ g.
Proof.
  intros Ha. rewrite <- (groupby_perm l) in Ha.
  apply list_elem_of_In, in_concat in Ha as (g & Hg & Hag).
  apply in_map_iff in Hg as ([k g'] & <- & Hkg). cbn [snd] in Hag.
  apply list_elem_of_In in Hkg. apply list_elem_of_In in Hag.
  pose proof (group_runs_keys (sorted_by key l)) as Hall.
  rewrite Forall_forall in Hall. destruct (Hall _ Hkg) as [_ Hk].
  rewrite Forall_forall in Hk. cbn [fst snd] in Hk.
  rewrite (Hk a Hag). eauto.
Qed.

End Sorting.

(** ** The examples, the index and the pages *)

Example title_general : title "general" = "General".
Proof. reflexivity. Qed.

Example demo_populate :
  populate_examples DemoGallery.get_docstring_and_rest
    DemoGallery.iter_examples "example-gallery" true
  = Some DemoGallery.examples.
Proof. reflexivity. Qed.



Section Gallery.
Variable get_docstring_and_rest :
  string -> option (string * option string * string * Z).

Local Abbreviation populated := (populate_examples get_docstring_and_rest).

Lemma populate_examples_elem (iter_examples : list Entry) (gallery_ref : string)
    (code_below : bool) (examples : list Example) (ex : Example) :
  populated iter_examples gallery_ref code_below = Some examples ->
  ex ∈ examples ->
  exists e, e ∈ iter_examples
            /\ populate get_docstring_and_rest gallery_ref code_below e = Some ex.
Proof.
  unfold populate_examples. intros H Hex. apply mapM_Some in H.
  apply list_elem_of_lookup in Hex as [i Hi].
  destruct (Forall2_lookup_r _ _ _ _ _ H Hi) as (e & He & Hp).
  exists e. split; [|done].
  rewrite <- (sorted_by_perm entry_name iter_examples).
  by apply list_elem_of_lookup_2 in He.
Qed.


(** C8.  Every example that [populate_examples] returns has the title-cased
    category of its file, "General" when the file names none; and the
    groups of the gallery index partition the examples: they hold the
    examples between them, no category heads two groups, and an example
    is in a group exactly when the group's category is its own. *)
Theorem category_defaults_and_groups_partition
    (iter_examples : list Entry) (gallery_ref : string) (code_below : bool)
    (examples : list Example) :
  populated iter_examples gallery_ref code_below = Some examples ->
  (forall ex, ex ∈ examples ->
     exists e doc cat src ln,
       e ∈ iter_examples
       /\ get_docstring_and_rest (entry_filename e) = Some (doc, cat, src, ln)
       /\ name ex = entry_name e
       /\ category ex = title (default "general" cat)
       /\ (cat = None -> category ex = "General"))
  /\ concat (map snd (gallery_groups examples)) ≡ₚ examples
  /\ NoDup (map fst (gallery_groups examples))
  /\ (forall k g ex,
        (k, g) ∈ gallery_groups examples ->
        (ex ∈ g <-> ex ∈ examples /\ category ex = k))
  /\ (forall ex, ex ∈ examples ->
        exists g, (category ex, g) ∈ gallery_groups examples /\ ex ∈ g).
Proof.
  intros H. split; [|split; [|split; [|split]]].
  - intros ex Hex.
    destruct (populate_examples_elem _ _ _ _ _ H Hex) as (e & He & Hp).
    unfold populate in Hp.
    destruct (get_docstring_and_rest (entry_filename e))
      as [[[[doc cat] src] ln]|] eqn:E; [|done].
    injection Hp as <-. exists e, doc, cat, src, ln. cbn.
    repeat split; try done; try (by destruct cat); by intros ->.
  - apply groupby_perm.
  - apply groupby_NoDup.
  - intros k g ex Hin. unfold gallery_groups in Hin.
    apply groupby_group in Hin as [_ ->].
    rewrite list_elem_of_In, filter_In, <- list_elem_of_In.
    unfold has_key. by rewrite String.eqb_eq.
  - intros ex Hex. by apply groupby_covers.
Qed.


End Gallery.

(** C7, amended.  The gallery index lists the categories of the examples
    in ascending order, each once, wherever their first examples stand in
    the sorted sequence; under a category come the examples that have it,
    in the order of the sequence. *)
Theorem index_categories_ascending (examples : list Example) :
  StronglySorted str_lt (index_categories examples)
  /\ (forall k, k ∈ index_categories examples
                <-> exists ex, ex ∈ examples /\ category ex = k)
  /\ (forall k g, (k, g) ∈ gallery_groups examples ->
                  g = List.filter (has_key category k) examples).
Proof.
  split; [apply groupby_sorted|]. split.
  - intros k. unfold index_categories. rewrite list_elem_of_fmap. split.
    + intros ([k' g] & -> & Hin). cbn [fst].
      destruct (groupby_group category examples k' g Hin) as [Hne ->].
      destruct (List.filter (has_key category k') examples) as [|ex r] eqn:E;
        [done|].
      assert (In ex (List.filter (has_key category k') examples)) as Hex
        by (rewrite E; by left).
      apply filter_In in Hex as [Hex Hk]. exists ex.
      split; [by apply list_elem_of_In|]. by apply String.eqb_eq in Hk.
    + intros (ex & Hex & <-).
      destruct (groupby_covers category examples ex Hex) as (g & Hg & _).
      by exists (category ex, g).
  - intros k g Hin. by apply groupby_group in Hin as [_ ->].
Qed.

(** C7 as stated fails: the category of the first example comes last in
    the index. *)
Lemma index_categories_not_first_seen :
  populate_examples DemoGallery.get_docstring_and_rest
    DemoGallery.iter_examples "example-gallery" true
  = Some DemoGallery.examples
  /\ map name DemoGallery.examples = ["area_chart"; "bar_chart"; "zoo"]
  /\ first_seen (map category DemoGallery.examples)
     = ["Other Charts"; "Bar Charts"; "General"]
  /\ index_categories DemoGallery.examples
     = ["Bar Charts"; "General"; "Other Charts"]
  /\ index_categories DemoGallery.examples
     <> first_seen (map category DemoGallery.examples).
Proof. repeat split; try reflexivity. discriminate. Qed.

Lemma category_defaults_and_groups_partition_witness :
  populate_examples DemoGallery.get_docstring_and_rest
    DemoGallery.iter_examples "example-gallery" true
  = Some DemoGallery.examples
  /\ concat (map snd (gallery_groups DemoGallery.examples))
     ≡ₚ DemoGallery.examples.
Proof.
  split; [exact demo_populate|].
  exact (proj1 (proj2 (category_defaults_and_groups_partition
                         DemoGallery.get_docstring_and_rest
                         DemoGallery.iter_examples "example-gallery" true
                         DemoGallery.examples demo_populate))).
Defined.


Example demo_pages :
  map (fun p => (fst p, prev_ref (snd p), next_ref (snd p)))
      (example_pages "gallery" DemoGallery.examples)
  = [("gallery/area_chart.rst", None, Some "gallery_bar_chart");
     ("gallery/bar_chart.rst", Some "gallery_area_chart", Some "gallery_zoo");
     ("gallery/zoo.rst", Some "gallery_bar_chart", None)].
Proof. reflexivity. Qed.

(** * Further properties of [save_example_pngs] *)

(** ** Invariants of statements, whatever their end *)

Lemma andthen_invariant (I : state -> Prop) (T : event -> Prop) (f g : step)
    (s : state) :
  I (final (f s)) -> Forall T (trace (f s)) ->
  (I (final (f s)) ->
   I (final (g (final (f s)))) /\ Forall T (trace (g (final (f s))))) ->
  I (final ((f >> g) s)) /\ Forall T (trace ((f >> g) s)).
Proof.
  intros HI HT Hg. unfold andthen.
  destruct (f s) as [t s1 [x|]]; cbn [trace final] in *; [done|].
  destruct (Hg HI) as [HI' HT'].
  destruct (g s1) as [t' s2 r]; cbn [trace final] in *.
  split; [done|]. by apply Forall_app.
Qed.

Lemma for_each_invariant {A : Type} (I : state -> Prop) (T : event -> Prop)
    (body : A -> step) (l : list A) :
  (forall x s, x ∈ l -> I s ->
               I (final (body x s)) /\ Forall T (trace (body x s))) ->
  forall s, I s ->
            I (final (for_each body l s)) /\ Forall T (trace (for_each body l s)).
Proof.
  induction l as [|x r IH]; intros Hb s Hs; [by split|].
  cbn [for_each].
  destruct (Hb x s) as [H1 H2]; [by left|done|].
  apply andthen_invariant; [done..|].
  intros Hs1. apply IH; [|done].
  intros y s' Hy. apply Hb. by right.
Qed.

(** ** What a turn may change *)

Lemma extends_refl (W : string -> Prop) (s : state) : extends W s s.
Proof. by repeat split. Qed.

Lemma extends_trans (W : string -> Prop) (s1 s2 s3 : state) :
  extends W s1 s2 -> extends W s2 s3 -> extends W s1 s3.
Proof.
  intros (F1 & D1 & R1) (F2 & D2 & R2). repeat split.
  - intros p Hp. by rewrite F2, F1.
  - set_solver.
  - set_solver.
Qed.

Lemma extends_weaken (W W' : string -> Prop) (s s' : state) :
  (forall p, W p -> W' p) -> extends W s s' -> extends W' s s'.
Proof.
  intros HW (F & D & R). repeat split; try done.
  intros p Hp. apply F. naive_solver.
Qed.

Lemma write_file_extends (p : string) (c : content) (s : state) :
  extends (fun q => q = p) s (final (write_file p c s))
  /\ hashes (final (write_file p c s)) = hashes s
  /\ dirs (final (write_file p c s)) = dirs s.
Proof.
  unfold write_file. destruct (bool_decide (p ∈ dirs s)); cbn.
  - split; [apply extends_refl|done].
  - split; [|done]. repeat split; cbn; try done.
    + intros q Hq. by rewrite lookup_insert_ne by done.
    + rewrite dom_insert_L. set_solver.
Qed.

Lemma touches_refl (W K : string -> Prop) (s : state) : touches W K s s.
Proof. split; [apply extends_refl|done]. Qed.

Lemma touches_trans (W K : string -> Prop) (s1 s2 s3 : state) :
  touches W K s1 s2 -> touches W K s2 s3 -> touches W K s1 s3.
Proof.
  intros [E1 H1] [E2 H2]. split; [by eapply extends_trans|].
  intros k Hk. by rewrite H2, H1.
Qed.

Lemma touches_weaken (W W' K K' : string -> Prop) (s s' : state) :
  (forall p, W p -> W' p) -> (forall k, K k -> K' k) ->
  touches W K s s' -> touches W' K' s s'.
Proof.
  intros HW HK [E H]. split; [by eapply extends_weaken|].
  intros k Hk. apply H. naive_solver.
Qed.

Lemma dump_hashes_touches (hf : string) (s : state) :
  let o := dump_hashes hf s in
  extends (fun p => p = hf) s (final o)
  /\ hashes (final o) = hashes s
  /\ dirs (final o) = dirs s
  /\ trace o = [DumpHashes hf (hashes s)].
Proof.
  unfold dump_hashes. cbn zeta. rewrite andthen_emit. cbn [trace final].
  destruct (write_file_extends hf (Json (hashes s)) s) as (E & H & D).
  split; [exact E|]. split; [exact H|]. split; [exact D|].
  unfold write_file. by destruct (bool_decide (hf ∈ dirs s)).
Qed.

Ltac solve_extends :=
  unfold extends; cbn [files dirs hashes];
  repeat split; try done;
  try (intros; rewrite ?lookup_insert_ne by naive_solver; done);
  try (rewrite ?dom_insert_L; set_solver).

Section Frames.
Context {chart : Type}.
Variable exec_chart : string -> option chart.
Variable savechart : chart -> string -> option string.
Variable create_thumbnail : content -> string -> kwargs -> option string.

Local Abbreviation body := (process_example exec_chart savechart create_thumbnail).
Local Abbreviation regen := (regenerate_image exec_chart savechart).
Local Abbreviation thumb := (thumbnail_step create_thumbnail).
Local Abbreviation run := (save_example_pngs exec_chart savechart create_thumbnail).

Lemma regenerate_extends (d : string) (ex : Example) (s : state) :
  let o := regen d ex s in
  extends (fun p => p = image_file_of d ex \/ p = hash_file_of d) s (final o)
  /\ dirs (final o) = dirs s
  /\ (forall k, k <> name ex +:+ ".png" ->
                hashes (final o) !! k = hashes s !! k)
  /\ Forall (fun e => is_thumbnail e = false) (trace o).
Proof.
  unfold regenerate_image, regenerate, dump_hashes.
  run_steps; (split; [solve_extends|]); (split; [done|]);
    (split; [intros k Hk; rewrite ?lookup_insert_ne by done; done|]);
    repeat constructor.
Qed.

Lemma thumb_extends (d : string) (mk : bool) (ex : Example) (s : state) :
  let o := thumb d mk ex s in
  extends (fun p => p = thumb_file_of d ex) s (final o)
  /\ dirs (final o) = dirs s
  /\ hashes (final o) = hashes s
  /\ Forall (fun e => regenerating e = false) (trace o)
  /\ (mk = false -> final o = s /\ trace o = []).
Proof.
  clear exec_chart savechart chart.
  unfold thumbnail_step, make_thumbnail. fold (thumb_file_of d ex).
  destruct mk.
  - run_steps; (split; [solve_extends|]); repeat split; try done;
      repeat constructor.
  - cbn. split; [apply extends_refl|]. repeat split; constructor.
Qed.

(** A turn, whatever its end: it writes at most the image, the hash file
    and (when asked to) the thumbnail, sets at most the example's key, and
    leaves the directories alone. *)
Lemma body_touches (d : string) (mk : bool) (ex : Example) (s : state) :
  let o := body d mk ex s in
  touches (run_paths [ex] d mk) (run_keys [ex]) s (final o)
  /\ dirs (final o) = dirs s
  /\ (mk = false -> Forall (fun e => is_thumbnail e = false) (trace o)).
Proof.
  cbn zeta. rewrite process_example_unfold.
  set (I := fun s' => touches (run_paths [ex] d mk) (run_keys [ex]) s s'
                      /\ dirs s' = dirs s).
  set (T := fun e => mk = false -> is_thumbnail e = false).
  assert (I (final (body d mk ex s)) /\ Forall T (trace (body d mk ex s)))
    as [[H1 H2] H3].
  { rewrite process_example_unfold.
    apply andthen_invariant.
    - split; [apply touches_refl|done].
    - by repeat constructor.
    - intros _. cbn [emit final]. apply andthen_invariant.
      + destruct (must_regenerate d ex s).
        * destruct (regenerate_extends d ex s) as (E & D & H & _).
          split; [|done]. split.
          -- eapply extends_weaken; [|exact E].
             intros p [->| ->]; [right; exists ex|left]; set_solver.
          -- intros k Hk. apply H. intros ->. apply Hk. exists ex. set_solver.
        * split; [apply touches_refl|done].
      + destruct (must_regenerate d ex s).
        * destruct (regenerate_extends d ex s) as (_ & _ & _ & Ht).
          eapply Forall_impl; [exact Ht|]. by intros e He _.
        * constructor.
      + intros [Ht Hd].
        match goal with |- context [thumb d mk ex ?st] => set (s1 := st) in * end.
        destruct (thumb_extends d mk ex s1) as (E & D & H & _ & Hoff).
        split; [split|].
        * eapply touches_trans; [exact Ht|]. split.
          -- destruct mk.
             ++ eapply extends_weaken; [|exact E].
                intros p ->. right. exists ex. set_solver.
             ++ destruct (Hoff eq_refl) as [-> _]. apply extends_refl.
          -- intros k _. by rewrite H.
        * by rewrite D.
        * destruct mk.
          -- apply Forall_forall. by intros e _ [=].
          -- destruct (Hoff eq_refl) as [_ ->]. constructor. }
  rewrite <- process_example_unfold. split; [done|]. split; [done|].
  intros Hmk. eapply Forall_impl; [exact H3|]. intros e He. by apply He.
Qed.

End Frames.

(** ** What a run may change *)

Lemma Forall_of_sublist {A : Type} (P : A -> Prop) (l k : list A) :
  Forall P k -> l `sublist_of` k -> Forall P l.
Proof.
  intros Hk Hs. apply Forall_forall. intros x Hx.
  rewrite Forall_forall in Hk. apply Hk. by eapply elem_of_sublist.
Qed.

(** The calls of the entry, whatever its end. *)
Lemma enter_trace (d : string) (s0 : state) :
  trace (enter d s0) `sublist_of` [Makedirs d; LoadHashes (hash_file_of d)].
Proof.
  rewrite enter_guard.
  destruct (guard_spec d s0) as (_ & _ & _ & _ & Ht & _).
  destruct (load_hashes_spec (hash_file_of d) (final (guard d s0)))
    as (_ & _ & Lt & _).
  unfold andthen.
  destruct (guard d s0) as [t s1 [x|]]; cbn [trace final] in *; subst t.
  - destruct (path_exists s0 d); repeat constructor.
  - destruct (load_hashes (hash_file_of d) s1) as [t' s2 r];
      cbn [trace] in *. subst t'.
    destruct (path_exists s0 d), (path_exists s1 (hash_file_of d));
      repeat constructor.
Qed.

Lemma enter_trace_quiet (d : string) (s0 : state) :
  Forall (fun e => is_thumbnail e = false /\ regenerating e = false
                   /\ is_dump e = false)
         (trace (enter d s0)).
Proof.
  eapply Forall_of_sublist; [|apply enter_trace]. repeat constructor.
Qed.

(** ** The calls of a run *)

Lemma andthen_calls (T : event -> Prop) (f g : step) (s : state) :
  Forall T (trace (f s)) -> (forall s', Forall T (trace (g s'))) ->
  Forall T (trace ((f >> g) s)).
Proof.
  intros Hf Hg. unfold andthen.
  destruct (f s) as [t s1 [x|]]; cbn [trace] in *; [done|].
  specialize (Hg s1). destruct (g s1) as [t' s2 r]; cbn [trace] in *.
  by apply Forall_app.
Qed.

Lemma for_each_calls {A : Type} (T : event -> Prop) (body : A -> step)
    (l : list A) :
  (forall x s, x ∈ l -> Forall T (trace (body x s))) ->
  forall s, Forall T (trace (for_each body l s)).
Proof.
  induction l as [|x r IH]; intros Hb s; [constructor|].
  cbn [for_each]. apply andthen_calls; [apply Hb; by left|].
  apply IH. intros y s' Hy. apply Hb. by right.
Qed.

Lemma for_each_ext {A : Type} (f g : A -> step) (l : list A) (s : state) :
  (forall x s', f x s' = g x s') -> for_each f l s = for_each g l s.
Proof.
  intros H. revert s. induction l as [|x r IH]; intros s; [done|].
  cbn [for_each]. rewrite (andthen_ext_l _ _ _ _ (H x s)).
  apply andthen_ext, IH.
Qed.

Lemma own_call_more (l l' : list Example) (d : string) (mk : bool) (e : event) :
  (forall ex, ex ∈ l -> ex ∈ l') -> own_call l d mk e -> own_call l' d mk e.
Proof.
  intros Hl. destruct e; cbn [own_call]; try done.
  - intros (ex & Hex & ->). eauto.
  - intros (ex & Hex & ->). eauto.
  - intros (Hmk & ex & Hex & -> & -> & ->). split; [done|]. eauto 10.
Qed.

Section RunFrames.
Context {chart : Type}.
Variable exec_chart : string -> option chart.
Variable savechart : chart -> string -> option string.
Variable create_thumbnail : content -> string -> kwargs -> option string.

Local Abbreviation body := (process_example exec_chart savechart create_thumbnail).
Local Abbreviation run := (save_example_pngs exec_chart savechart create_thumbnail).

Lemma loop_touches (d : string) (mk : bool) (l : list Example) (s : state) :
  let o := for_each (body d mk) l s in
  touches (run_paths l d mk) (run_keys l) s (final o)
  /\ dirs (final o) = dirs s
  /\ (mk = false -> Forall (fun e => is_thumbnail e = false) (trace o)).
Proof.
  cbn zeta.
  destruct (for_each_invariant
              (fun s' => touches (run_paths l d mk) (run_keys l) s s'
                         /\ dirs s' = dirs s)
              (fun e => mk = false -> is_thumbnail e = false)
              (body d mk) l) with (s := s) as [[H1 H2] H3].
  - intros x s1 Hx [Ht Hd].
    destruct (body_touches exec_chart savechart create_thumbnail d mk x s1)
      as (Hb & Hbd & Hbt).
    split; [split|].
    + eapply touches_trans; [exact Ht|].
      eapply touches_weaken; [| |exact Hb].
      * intros p [->|(ex & ->%list_elem_of_singleton & Hp)]; [by left|].
        right. by exists x.
      * intros k (ex & ->%list_elem_of_singleton & ->). by exists x.
    + by rewrite Hbd.
    + destruct mk.
      * apply Forall_forall. by intros e _ [=].
      * eapply Forall_impl; [exact (Hbt eq_refl)|]. by intros e He _.
  - split; [apply touches_refl|done].
  - split; [done|]. split; [done|].
    intros Hmk. eapply Forall_impl; [exact H3|]. intros e He. by apply He.
Qed.

Local Abbreviation regen := (regenerate_image exec_chart savechart).
Local Abbreviation thumb := (thumbnail_step create_thumbnail).

Lemma regenerate_calls (d : string) (mk : bool) (ex : Example) (s : state) :
  Forall (own_call [ex] d mk) (trace (regen d ex s)).
Proof.
  assert (Hin : exists e, e ∈ [ex] /\ code ex = code e)
    by (exists ex; split; [by left|done]).
  assert (Hin' : exists e, e ∈ [ex]
                           /\ image_file_of d ex = image_file_of d e)
    by (exists ex; split; [by left|done]).
  unfold regenerate_image, regenerate, dump_hashes.
  run_steps; repeat (constructor; [by cbn [own_call]|]); constructor.
Qed.

Lemma thumb_calls (d : string) (mk : bool) (ex : Example) (s : state) :
  Forall (own_call [ex] d mk) (trace (thumb d mk ex s)).
Proof.
  clear exec_chart savechart chart.
  unfold thumbnail_step. destruct mk; [|constructor].
  destruct (make_thumbnail_spec create_thumbnail d ex s) as (-> & _).
  constructor; [|constructor]. split; [done|].
  exists ex. split; [by left|done].
Qed.

Lemma body_calls (d : string) (mk : bool) (ex : Example) (s : state) :
  Forall (own_call [ex] d mk) (trace (body d mk ex s)).
Proof.
  rewrite process_example_unfold.
  apply andthen_calls; [by repeat constructor|]. intros s1.
  apply andthen_calls; [|intros s2; apply thumb_calls].
  destruct (must_regenerate d ex s1); [apply regenerate_calls|constructor].
Qed.

(** X1.  Whatever its end, every call a run makes to the outside is one
    of its own: [makedirs] is called on the image directory only, the
    hash file is the only file loaded or dumped, only code of its
    examples is executed, charts are exported to the image paths of its
    examples only, and the thumbnail routine is called only when
    thumbnails are asked for, from the image of an example to the
    thumbnail of that example with its gallery parameters. *)
Theorem run_calls_are_its_own
    (examples : list Example) (image_dir : string) (make_thumbnails : bool)
    (s0 : state) :
  Forall (own_call examples image_dir make_thumbnails)
         (trace (run examples image_dir make_thumbnails s0)).
Proof.
  rewrite run_enter. apply andthen_calls.
  - eapply Forall_of_sublist; [|apply enter_trace]. by repeat constructor.
  - intros s1. apply andthen_calls.
    + apply for_each_calls. intros ex s Hex.
      eapply Forall_impl; [apply body_calls|].
      intros e. apply own_call_more.
      by intros ? ->%list_elem_of_singleton.
    + intros s2. destruct (dump_hashes_touches (hash_file_of image_dir) s2)
        as (_ & _ & _ & ->).
      by repeat constructor.
Qed.

(** X2.  With [make_thumbnails] off a run calls the thumbnail routine for
    no example: no such call is in its trace, and its outcome is the
    same whatever the thumbnail routine is. *)
Theorem no_thumbnail_when_disabled
    (examples : list Example) (image_dir : string) (s0 : state) :
  let o := run examples image_dir false s0 in
  Forall (fun e => is_thumbnail e = false) (trace o)
  /\ forall create_thumbnail' : content -> string -> kwargs -> option string,
      save_example_pngs exec_chart savechart create_thumbnail'
        examples image_dir false s0 = o.
Proof.
  cbn zeta. split.
  - rewrite run_enter. apply andthen_calls.
    + eapply Forall_impl; [apply enter_trace_quiet|]. by intros e [? _].
    + intros s1. apply andthen_calls.
      * apply for_each_calls. intros ex s _.
        by apply (body_touches exec_chart savechart create_thumbnail).
      * intros s2. destruct (dump_hashes_touches (hash_file_of image_dir) s2)
          as (_ & _ & _ & ->).
        by repeat constructor.
  - intros create_thumbnail'. rewrite !run_enter.
    apply andthen_ext. intros s1.
    apply andthen_ext_l, for_each_ext. reflexivity.
Qed.

End RunFrames.

(** ** After a run *)

Lemma cache_valid_preserved (d : string) (ex : Example) (s s' : state) :
  hashes s' !! (name ex +:+ ".png") = hashes s !! (name ex +:+ ".png") ->
  dom (files s) ⊆ dom (files s') ->
  dirs s ⊆ dirs s' ->
  cache_valid d ex s -> cache_valid d ex s'.
Proof.
  intros Hh Hf Hd [H1 H2]. split; [by rewrite Hh|].
  rewrite path_exists_dom in *. apply orb_true_iff in H2.
  apply orb_true_iff. destruct H2 as [H2|H2]; apply bool_decide_eq_true_1 in H2;
    [left|right]; apply bool_decide_eq_true_2; set_solver.
Qed.

Lemma path_exists_mono (s s' : state) (p : string) :
  dom (files s) ⊆ dom (files s') -> dirs s ⊆ dirs s' ->
  path_exists s p = true -> path_exists s' p = true.
Proof.
  intros Hf Hd. rewrite !path_exists_dom, !orb_true_iff, !bool_decide_eq_true.
  set_solver.
Qed.

Lemma enter_json (d : string) (s0 : state) (h : gmap string string) :
  files s0 !! hash_file_of d = Some (Json h) -> guard_passes d s0 ->
  raised (enter d s0) = None.
Proof.
  intros Hb Hg%guard_passes_bool.
  assert (Hh : path_exists s0 (hash_file_of d) = true).
  { unfold path_exists. rewrite Hb. apply orb_true_iff. left.
    apply bool_decide_eq_true_2. eauto. }
  by rewrite enter_raised, Hg, Hh, Hb.
Qed.

Section AfterRun.
Context {chart : Type}.
Variable exec_chart : string -> option chart.
Variable savechart : chart -> string -> option string.
Variable create_thumbnail : content -> string -> kwargs -> option string.

Local Abbreviation body := (process_example exec_chart savechart create_thumbnail).
Local Abbreviation thumb := (thumbnail_step create_thumbnail).
Local Abbreviation run := (save_example_pngs exec_chart savechart create_thumbnail).
Local Abbreviation run_to := (run_until exec_chart savechart create_thumbnail).
Local Abbreviation at_turn := (reaches exec_chart savechart create_thumbnail).

(** A turn that runs to its end leaves a valid cache entry. *)
Lemma body_finished_valid (d : string) (mk : bool) (ex : Example) (s : state) :
  raised (body d mk ex s) = None ->
  cache_valid d ex (final (body d mk ex s)).
Proof.
  intros H.
  destruct (body_finished exec_chart savechart create_thumbnail d mk ex s H)
    as (_ & Hh & Hd & Hf).
  destruct (must_regenerate d ex s) eqn:Hm.
  - split; [by rewrite Hh, lookup_insert_eq|].
    rewrite path_exists_dom, Hf. apply orb_true_iff. left.
    apply bool_decide_eq_true_2. set_solver.
  - apply must_regenerate_false in Hm.
    eapply cache_valid_preserved; [| | |exact Hm].
    + by rewrite Hh.
    + rewrite Hf. set_solver.
    + by rewrite Hd.
Qed.

(** A turn on a valid entry keeps the table and the directories, and
    deletes no file, whatever its end. *)
Lemma body_hit_state (d : string) (mk : bool) (ex : Example) (s : state) :
  cache_valid d ex s ->
  hashes (final (body d mk ex s)) = hashes s
  /\ dirs (final (body d mk ex s)) = dirs s
  /\ dom (files s) ⊆ dom (files (final (body d mk ex s))).
Proof.
  intros Hv. rewrite body_hit by done. rewrite andthen_emit. cbn [final].
  destruct (thumb_extends create_thumbnail d mk ex s)
    as ((_ & Hdom & _) & Hd & Hh & _).
  done.
Qed.

Lemma loop_valid (d : string) (mk : bool) (l : list Example) (s : state) :
  raised (for_each (body d mk) l s) = None ->
  NoDup (map name l) ->
  forall ex, ex ∈ l -> cache_valid d ex (final (for_each (body d mk) l s)).
Proof.
  revert s. induction l as [|x r IH]; intros s H Hnd ex Hex.
  - by apply elem_of_nil in Hex.
  - apply for_each_cons_finished in H as (H1 & H2 & _ & ->).
    cbn [map] in Hnd. apply NoDup_cons in Hnd as [Hx Hnd].
    apply elem_of_cons in Hex as [->|Hex]; [|by apply IH].
    pose proof (body_finished_valid d mk x s H1) as Hv.
    destruct (loop_touches exec_chart savechart create_thumbnail d mk r
                (final (body d mk x s))) as ([(_ & Hdom & Hdirs) Hk] & _).
    eapply cache_valid_preserved; [|exact Hdom|exact Hdirs|exact Hv].
    apply Hk. intros (e & He & Heq). apply app_inj_r in Heq.
    apply Hx. rewrite Heq. apply list_elem_of_fmap. eauto.
Qed.

(** The parts of a run that reaches its end. *)
Lemma run_finished_parts (examples : list Example) (d : string) (mk : bool)
    (s0 : state) :
  raised (run examples d mk s0) = None ->
  let s1 := final (enter d s0) in
  let s2 := final (for_each (body d mk) examples s1) in
  raised (enter d s0) = None
  /\ raised (for_each (body d mk) examples s1) = None
  /\ final (run examples d mk s0) = final (dump_hashes (hash_file_of d) s2).
Proof.
  rewrite run_enter. intros H. cbn zeta.
  apply andthen_finished in H as H'. destruct H' as [He H'].
  apply andthen_finished in H' as H''. destruct H'' as [Hl Hd].
  rewrite andthen_ok by done. cbn [final]. rewrite andthen_ok by done. done.
Qed.

(** After a finished run over distinct names every entry is valid. *)
Lemma run_leaves_valid
    (examples : list Example) (image_dir : string) (make_thumbnails : bool)
    (s0 : state) :
  raised (run examples image_dir make_thumbnails s0) = None ->
  NoDup (map name examples) ->
  let s := final (run examples image_dir make_thumbnails s0) in
  (forall ex, ex ∈ examples -> cache_valid image_dir ex s)
  /\ files s !! hash_file_of image_dir = Some (Json (hashes s)).
Proof.
  intros H Hnd s. subst s.
  destruct (run_finished exec_chart savechart create_thumbnail
              examples image_dir make_thumbnails s0 H) as (_ & Hf).
  split; [|exact Hf].
  destruct (run_finished_parts examples image_dir make_thumbnails s0 H)
    as (_ & Hl & ->).
  intros ex Hex.
  pose proof (loop_valid image_dir make_thumbnails examples _ Hl Hnd ex Hex)
    as Hv.
  match goal with |- context [dump_hashes _ ?st] => set (s2 := st) in * end.
  destruct (dump_hashes_touches (hash_file_of image_dir) s2)
    as ((_ & Hdom & Hdirs) & Hh & _).
  eapply cache_valid_preserved; [|exact Hdom|exact Hdirs|exact Hv].
  by rewrite Hh.
Qed.


(** A finished run leaves the image directory in place. *)
Lemma run_finished_dir
    (examples : list Example) (image_dir : string) (make_thumbnails : bool)
    (s0 : state) :
  raised (run examples image_dir make_thumbnails s0) = None ->
  path_exists (final (run examples image_dir make_thumbnails s0)) image_dir
  = true.
Proof.
  intros H.
  destruct (run_finished_parts examples image_dir make_thumbnails s0 H)
    as (He & _ & ->).
  destruct (enter_any image_dir s0) as (_ & _ & _ & Hg & _).
  destruct (Hg He) as [_ Hd].
  destruct (loop_touches exec_chart savechart create_thumbnail image_dir
              make_thumbnails examples (final (enter image_dir s0)))
    as ([(_ & Hdom & Hdirs) _] & _).
  match goal with |- context [dump_hashes _ ?st] => set (s2 := st) in * end.
  destruct (dump_hashes_touches (hash_file_of image_dir) s2)
    as ((_ & Hdom' & Hdirs') & _).
  eapply path_exists_mono; [exact Hdom'|exact Hdirs'|].
  eapply path_exists_mono; [exact Hdom|exact Hdirs|exact Hd].
Qed.

(** X3.  After a run that reaches its end over examples with distinct
    names, the cache is valid for every one of them: the table holds the
    digest of its code, its image exists, and the hash file holds the
    table. *)
Theorem cache_valid_after_run
    (examples : list Example) (image_dir : string) (make_thumbnails : bool)
    (s0 : state) :
  raised (run examples image_dir make_thumbnails s0) = None ->
  NoDup (map name examples) ->
  let s := final (run examples image_dir make_thumbnails s0) in
  (forall ex, ex ∈ examples -> cache_valid image_dir ex s)
  /\ files s !! hash_file_of image_dir = Some (Json (hashes s)).
Proof.
  exact (run_leaves_valid examples image_dir make_thumbnails s0).
Qed.

(** X4.  A second run over the same examples, from the disk a finished run
    has left, regenerates nothing, with or without thumbnails and
    whatever its own end. *)
Theorem second_run_regenerates_nothing
    (examples : list Example) (image_dir : string) (make_thumbnails : bool)
    (s0 : state) (make_thumbnails' : bool) :
  raised (run examples image_dir make_thumbnails s0) = None ->
  NoDup (map name examples) ->
  let s := final (run examples image_dir make_thumbnails s0) in
  Forall (fun e => regenerating e = false)
         (trace (run examples image_dir make_thumbnails' s)).
Proof.
  intros H Hnd s.
  pose proof (run_leaves_valid examples image_dir make_thumbnails s0 H Hnd)
    as Hs. fold s in Hs.
  pose proof (run_finished_dir examples image_dir make_thumbnails s0 H)
    as Hdir. fold s in Hdir.
  clearbody s. clear H. destruct Hs as [Hv Hf].
  rewrite run_enter.
  pose (I := fun s' => forall ex, ex ∈ examples -> cache_valid image_dir ex s').
  pose (T := fun e => regenerating e = false).
  apply (andthen_invariant I T).
  - pose proof (enter_json image_dir s _ Hf (or_introl Hdir)) as Hr.
    destruct (enter_any image_dir s) as (_ & Hfl & Hh & _ & Hd).
    intros ex Hex. eapply cache_valid_preserved; [| | |exact (Hv ex Hex)].
    + rewrite (Hh Hr), Hf. done.
    + by rewrite Hfl.
    + done.
  - eapply Forall_impl; [apply enter_trace_quiet|]. by intros e (_ & ? & _).
  - intros HI. apply (andthen_invariant I T).
    + apply (for_each_invariant I T); [|done].
      intros x s' Hx HI'. split.
      * destruct (body_hit_state image_dir make_thumbnails' x s' (HI' x Hx))
          as (Hh & Hd & Hdom).
        intros ex Hex. eapply cache_valid_preserved; [| | |exact (HI' ex Hex)].
        -- by rewrite Hh.
        -- done.
        -- by rewrite Hd.
      * by apply body_skips_iff, HI'.
    + apply (for_each_invariant I T); [|done].
      intros x s' Hx HI'. split.
      * destruct (body_hit_state image_dir make_thumbnails' x s' (HI' x Hx))
          as (Hh & Hd & Hdom).
        intros ex Hex. eapply cache_valid_preserved; [| | |exact (HI' ex Hex)].
        -- by rewrite Hh.
        -- done.
        -- by rewrite Hd.
      * by apply body_skips_iff, HI'.
    + intros HI'.
      match goal with |- context [dump_hashes _ ?st] => set (s2 := st) in * end.
      destruct (dump_hashes_touches (hash_file_of image_dir) s2)
        as ((_ & Hdom & Hdirs) & Hh & _ & Ht).
      rewrite Ht. split; [|by repeat constructor].
      intros ex Hex. eapply cache_valid_preserved; [| | |exact (HI' ex Hex)];
        [by rewrite Hh|done..].
Qed.

(** X5.  A run that reaches its end keeps, in the table and in the hash
    file it rewrites, every entry of the old hash file whose filename
    belongs to none of its examples. *)
Theorem stale_entries_kept
    (examples : list Example) (image_dir : string) (make_thumbnails : bool)
    (s0 : state) :
  raised (run examples image_dir make_thumbnails s0) = None ->
  let s := final (run examples image_dir make_thumbnails s0) in
  let old := match files s0 !! hash_file_of image_dir with
             | Some (Json h) => h
             | _ => ∅
             end in
  files s !! hash_file_of image_dir = Some (Json (hashes s))
  /\ forall k, (forall ex, ex ∈ examples -> k <> name ex +:+ ".png") ->
               hashes s !! k = old !! k.
Proof.
  intros H s old. subst s.
  destruct (run_finished exec_chart savechart create_thumbnail
              examples image_dir make_thumbnails s0 H) as (_ & Hf).
  split; [exact Hf|]. intros k Hk.
  destruct (run_finished_parts examples image_dir make_thumbnails s0 H)
    as (He & _ & ->).
  match goal with |- context [dump_hashes _ ?st] => set (s2 := st) in * end.
  destruct (dump_hashes_touches (hash_file_of image_dir) s2) as (_ & -> & _).
  subst s2.
  destruct (loop_touches exec_chart savechart create_thumbnail image_dir
              make_thumbnails examples (final (enter image_dir s0)))
    as ([_ Hkeep] & _).
  rewrite Hkeep.
  - destruct (enter_any image_dir s0) as (_ & _ & Hh & _). by rewrite (Hh He).
  - intros (ex & Hex & ->). by apply (Hk ex Hex).
Qed.

Lemma regenerate_exec_fails (d : string) (ex : Example) (s : state) :
  exec_chart (code ex) = None ->
  regenerate_image exec_chart savechart d ex s
  = mkOutcome [Print ("-> saving " +:+ image_file_of d ex); Exec (code ex)]
              s (Some ExampleError).
Proof.
  intros H. unfold regenerate_image, regenerate.
  rewrite !andthen_emit. by rewrite H.
Qed.

Lemma regenerate_savechart_fails (d : string) (ex : Example) (s : state)
    (c : chart) :
  exec_chart (code ex) = Some c ->
  savechart c (image_file_of d ex) = None ->
  regenerate_image exec_chart savechart d ex s
  = mkOutcome [Print ("-> saving " +:+ image_file_of d ex); Exec (code ex);
               SaveChart (image_file_of d ex)]
              s (Some ExampleError).
Proof.
  intros H1 H2. unfold regenerate_image, regenerate.
  rewrite !andthen_emit. rewrite H1. rewrite andthen_emit.
  unfold andthen. by rewrite H2.
Qed.

(** X6.  When the code of an example that has to be regenerated raises, or
    the export of its chart does, the run ends there with that error: the
    failing call is the last call of the run, so no later example is
    looked at and the table is not dumped, neither for this example nor
    at the end. *)
Theorem example_failure_ends_run
    (examples : list Example) (image_dir : string) (make_thumbnails : bool)
    (s0 : state) (i : nat) (ex : Example) (s : state) :
  examples !! i = Some ex ->
  at_turn examples image_dir make_thumbnails s0 i = Some s ->
  ~ cache_valid image_dir ex s ->
  (exec_chart (code ex) = None
   \/ exists c, exec_chart (code ex) = Some c
                /\ savechart c (image_file_of image_dir ex) = None) ->
  let o := run examples image_dir make_thumbnails s0 in
  raised o = Some ExampleError
  /\ exists rest,
      trace o = trace (run_to examples image_dir make_thumbnails i s0)
                ++ Print ("-> using cached " +:+ image_file_of image_dir ex)
                :: Print ("-> saving " +:+ image_file_of image_dir ex)
                :: Exec (code ex) :: rest
      /\ (exec_chart (code ex) = None -> rest = [])
      /\ (exec_chart (code ex) <> None ->
          rest = [SaveChart (image_file_of image_dir ex)]).
Proof.
  intros Hi Hs Hn Hfail o. subst o.
  rewrite (run_split exec_chart savechart create_thumbnail _ _ _ _ _ _ Hi).
  unfold reaches in Hs.
  destruct (raised (run_to examples image_dir make_thumbnails i s0)) eqn:E;
    [done|]. injection Hs as Hs.
  rewrite andthen_ok by done. cbn [raised final trace]. rewrite Hs.
  assert (exists rest,
            body image_dir make_thumbnails ex s
            = mkOutcome
                (Print ("-> using cached " +:+ image_file_of image_dir ex)
                 :: Print ("-> saving " +:+ image_file_of image_dir ex)
                 :: Exec (code ex) :: rest) s (Some ExampleError)
            /\ (exec_chart (code ex) = None -> rest = [])
            /\ (exec_chart (code ex) <> None ->
                rest = [SaveChart (image_file_of image_dir ex)]))
    as (rest & Hb & Hrest).
  { rewrite body_miss by done. rewrite andthen_emit.
    destruct Hfail as [Hx|(c & Hx & Hp)].
    - exists []. split; [|split; [done|congruence]].
      rewrite (andthen_raised _ _ _ ExampleError);
        by rewrite regenerate_exec_fails.
    - exists [SaveChart (image_file_of image_dir ex)].
      split; [|split; [congruence|done]].
      rewrite (andthen_raised _ _ _ ExampleError);
        by rewrite (regenerate_savechart_fails _ _ _ c). }
  rewrite (andthen_raised _ _ _ ExampleError) by (by rewrite Hb).
  rewrite Hb. cbn [raised final trace]. eauto.
Qed.

End AfterRun.

Lemma demo_two_finished :
  raised (Demo.run [Demo.ex_a; Demo.ex "b" "xyz"] "img" true Demo.empty_world)
  = None.
Proof. vm_compute. reflexivity. Qed.

Lemma demo_two_names : NoDup (map name [Demo.ex_a; Demo.ex "b" "xyz"]).
Proof. cbn. repeat constructor; set_solver. Qed.

Lemma cache_valid_after_run_witness :
  raised (Demo.run [Demo.ex_a; Demo.ex "b" "xyz"] "img" true Demo.empty_world)
  = None
  /\ NoDup (map name [Demo.ex_a; Demo.ex "b" "xyz"])
  /\ cache_valid "img" (Demo.ex "b" "xyz")
       (final (Demo.run [Demo.ex_a; Demo.ex "b" "xyz"] "img" true
                 Demo.empty_world)).
Proof.
  split; [exact demo_two_finished|]. split; [exact demo_two_names|].
  apply (proj1 (cache_valid_after_run
                  Demo.exec_chart Demo.savechart Demo.create_thumbnail
                  [Demo.ex_a; Demo.ex "b" "xyz"] "img" true Demo.empty_world
                  demo_two_finished demo_two_names)).
  set_solver.
Defined.

Lemma second_run_regenerates_nothing_witness :
  raised (Demo.run [Demo.ex_a; Demo.ex "b" "xyz"] "img" true Demo.empty_world)
  = None
  /\ NoDup (map name [Demo.ex_a; Demo.ex "b" "xyz"])
  /\ Forall (fun e => regenerating e = false)
       (trace (Demo.run [Demo.ex_a; Demo.ex "b" "xyz"] "img" false
                 (final (Demo.run [Demo.ex_a; Demo.ex "b" "xyz"] "img" true
                           Demo.empty_world)))).
Proof.
  split; [exact demo_two_finished|]. split; [exact demo_two_names|].
  exact (second_run_regenerates_nothing
           Demo.exec_chart Demo.savechart Demo.create_thumbnail
           [Demo.ex_a; Demo.ex "b" "xyz"] "img" true Demo.empty_world false
           demo_two_finished demo_two_names).
Defined.

Lemma stale_entries_kept_witness :
  raised (Demo.run [Demo.ex "b" "xyz"] "img" true Demo.built) = None
  /\ hashes (final (Demo.run [Demo.ex "b" "xyz"] "img" true Demo.built))
       !! "a.png"
     = Some "900150983cd24fb0d6963f7d28e17f72".
Proof.
  assert (H : raised (Demo.run [Demo.ex "b" "xyz"] "img" true Demo.built) = None)
    by (vm_compute; reflexivity).
  split; [exact H|]. unfold Demo.run in *.
  rewrite (proj2 (stale_entries_kept
                    Demo.exec_chart Demo.savechart Demo.create_thumbnail
                    [Demo.ex "b" "xyz"] "img" true Demo.built H) "a.png").
  - vm_compute. reflexivity.
  - intros ex ->%list_elem_of_singleton. vm_compute. discriminate.
Defined.

Lemma example_failure_ends_run_witness :
  [Demo.ex "r" "raise"] !! 0%nat = Some (Demo.ex "r" "raise")
  /\ reaches Demo.exec_chart Demo.savechart Demo.create_thumbnail
       [Demo.ex "r" "raise"] "img" true Demo.empty_world 0 = Some Demo.fresh
  /\ ~ cache_valid "img" (Demo.ex "r" "raise") Demo.fresh
  /\ Demo.exec_chart (code (Demo.ex "r" "raise")) = None
  /\ raised (Demo.run [Demo.ex "r" "raise"] "img" true Demo.empty_world)
     = Some ExampleError.
Proof.
  assert (H0 : [Demo.ex "r" "raise"] !! 0%nat = Some (Demo.ex "r" "raise"))
    by reflexivity.
  assert (H1 : reaches Demo.exec_chart Demo.savechart Demo.create_thumbnail
                 [Demo.ex "r" "raise"] "img" true Demo.empty_world 0
               = Some Demo.fresh) by (vm_compute; reflexivity).
  assert (H2 : ~ cache_valid "img" (Demo.ex "r" "raise") Demo.fresh).
  { intros [H _]. vm_compute in H. discriminate H. }
  assert (H3 : Demo.exec_chart (code (Demo.ex "r" "raise")) = None)
    by reflexivity.
  destruct (example_failure_ends_run
              Demo.exec_chart Demo.savechart Demo.create_thumbnail
              [Demo.ex "r" "raise"] "img" true Demo.empty_world 0
              (Demo.ex "r" "raise") Demo.fresh H0 H1 H2 (or_introl H3))
    as (Hr & _).
  exact (conj H0 (conj H1 (conj H2 (conj H3 Hr)))).
Defined.


(** ** Names that end in "-thumb" *)

Lemma image_file_of_thumb_name (d : string) (ex ex' : Example) :
  name ex' = name ex +:+ "-thumb" ->
  image_file_of d ex' = thumb_file_of d ex.
Proof.
  intros H. unfold image_file_of, thumb_file_of.
  rewrite H, app_assoc_str. reflexivity.
Qed.

Section Collision.
Context {chart : Type}.
Variable exec_chart : string -> option chart.
Variable savechart : chart -> string -> option string.
Variable create_thumbnail : content -> string -> kwargs -> option string.

Local Abbreviation body := (process_example exec_chart savechart create_thumbnail).
Local Abbreviation thumb := (thumbnail_step create_thumbnail).

(** X7.  The thumbnail of an example named [n] is written where the image
    of an example named [n-thumb] lives: a turn for [n] that reaches its
    end leaves thumbnail bytes at that path and the table entry of
    [n-thumb] as it was, so that a valid entry for [n-thumb] stays valid
    over a file that is no longer its image. *)
Theorem thumbnail_overwrites_image_of_thumb_name
    (image_dir : string) (ex ex' : Example) (s : state) :
  name ex' = name ex +:+ "-thumb" ->
  raised (body image_dir true ex s) = None ->
  let s' := final (body image_dir true ex s) in
  (exists img t,
      create_thumbnail img (thumb_file_of image_dir ex)
        (default ∅ (galleryParameters ex)) = Some t
      /\ files s' !! image_file_of image_dir ex' = Some (Blob t))
  /\ hashes s' !! (name ex' +:+ ".png") = hashes s !! (name ex' +:+ ".png")
  /\ (cache_valid image_dir ex' s -> cache_valid image_dir ex' s').
Proof.
  intros Hn Hfin s'.
  assert (Hkey : hashes s' !! (name ex' +:+ ".png")
                 = hashes s !! (name ex' +:+ ".png")).
  { destruct (body_touches exec_chart savechart create_thumbnail
                image_dir true ex s) as ([_ Hk] & _).
    apply Hk. intros (e & ->%list_elem_of_singleton & Heq).
    apply app_inj_r in Heq. rewrite Hn in Heq.
    apply (f_equal String.length) in Heq.
    rewrite app_length_str in Heq. cbn in Heq. lia. }
  assert (Hfile : exists img t,
      create_thumbnail img (thumb_file_of image_dir ex)
        (default ∅ (galleryParameters ex)) = Some t
      /\ files s' !! image_file_of image_dir ex' = Some (Blob t)).
  { subst s'. rewrite (image_file_of_thumb_name image_dir ex ex' Hn).
    rewrite process_example_unfold in *.
    rewrite andthen_emit in *. cbn [raised final] in *.
    apply andthen_finished in Hfin as Hfin'. destruct Hfin' as [H1 H2].
    rewrite andthen_ok by done. cbn [final].
    destruct (make_thumbnail_finished create_thumbnail image_dir ex _ H2)
      as (img & t & _ & Ht & ->).
    exists img, t. split; [done|]. by rewrite lookup_insert_eq. }
  split; [exact Hfile|]. split; [exact Hkey|].
  intros [Hv1 Hv2]. split; [by rewrite Hkey|].
  destruct Hfile as (img & t & _ & Hf).
  unfold path_exists. rewrite Hf. apply orb_true_iff. left.
  apply bool_decide_eq_true_2. eauto.
Qed.

End Collision.

Lemma thumbnail_overwrites_image_of_thumb_name_witness :
  name (Demo.ex "a-thumb" "xyz") = name Demo.ex_a +:+ "-thumb"
  /\ raised (Demo.body "img" true Demo.ex_a Demo.fresh) = None
  /\ files (final (Demo.body "img" true Demo.ex_a Demo.fresh))
       !! image_file_of "img" (Demo.ex "a-thumb" "xyz")
     = Some (Blob "thumb:PNG:abc").
Proof.
  assert (H0 : name (Demo.ex "a-thumb" "xyz") = name Demo.ex_a +:+ "-thumb")
    by reflexivity.
  assert (H1 : raised (Demo.body "img" true Demo.ex_a Demo.fresh) = None)
    by (vm_compute; reflexivity).
  destruct (thumbnail_overwrites_image_of_thumb_name
              Demo.exec_chart Demo.savechart Demo.create_thumbnail
              "img" Demo.ex_a (Demo.ex "a-thumb" "xyz") Demo.fresh H0 H1)
    as ((img & t & _ & Hf) & _).
  split; [exact H0|]. split; [exact H1|].
  vm_compute. reflexivity.
Defined.

(** * Further properties of the collection and of the pages *)

(** ** Title case *)

Lemma is_cased_to_lower (c : ascii) : is_cased (to_lower c) = is_cased c.
Proof. destruct c as [[] [] [] [] [] [] [] []]; reflexivity. Qed.

Lemma is_cased_to_upper (c : ascii) : is_cased (to_upper c) = is_cased c.
Proof. destruct c as [[] [] [] [] [] [] [] []]; reflexivity. Qed.

Lemma to_lower_to_lower (c : ascii) : to_lower (to_lower c) = to_lower c.
Proof. destruct c as [[] [] [] [] [] [] [] []]; reflexivity. Qed.

Lemma to_upper_to_lower (c : ascii) : to_upper (to_lower c) = to_upper c.
Proof. destruct c as [[] [] [] [] [] [] [] []]; reflexivity. Qed.

Lemma to_upper_to_upper (c : ascii) : to_upper (to_upper c) = to_upper c.
Proof. destruct c as [[] [] [] [] [] [] [] []]; reflexivity. Qed.

Lemma to_lower_to_upper (c : ascii) : to_lower (to_upper c) = to_lower c.
Proof. destruct c as [[] [] [] [] [] [] [] []]; reflexivity. Qed.

Lemma title_from_lower (b : bool) (s : string) :
  title_from b (lower s) = title_from b s.
Proof.
  revert b. induction s as [|c r IH]; intros b; [done|].
  cbn [lower title_from]. rewrite is_cased_to_lower, IH.
  by destruct b; rewrite ?to_lower_to_lower, ?to_upper_to_lower.
Qed.

Lemma title_from_idem (b : bool) (s : string) :
  title_from b (title_from b s) = title_from b s.
Proof.
  revert b. induction s as [|c r IH]; intros b; [done|].
  cbn [title_from]. destruct b.
  - by rewrite is_cased_to_lower, to_lower_to_lower, IH.
  - by rewrite is_cased_to_upper, to_upper_to_upper, IH.
Qed.

Lemma is_ascii_to_lower (c : ascii) : is_ascii (to_lower c) = is_ascii c.
Proof. destruct c as [[] [] [] [] [] [] [] []]; reflexivity. Qed.

Lemma is_ascii_to_upper (c : ascii) : is_ascii (to_upper c) = is_ascii c.
Proof. destruct c as [[] [] [] [] [] [] [] []]; reflexivity. Qed.

Lemma title_from_ascii_only (b : bool) (s : string) :
  ascii_only (title_from b s) = ascii_only s.
Proof.
  revert b. induction s as [|c r IH]; intros b; [done|].
  cbn [title_from ascii_only]. rewrite IH.
  by destruct b; rewrite ?is_ascii_to_lower, ?is_ascii_to_upper.
Qed.

Lemma title_ascii_only (s : string) :
  ascii_only s = true -> ascii_only (title s) = true.
Proof. intros H. unfold title. by rewrite title_from_ascii_only. Qed.

Lemma title_case_insensitive (a b : string) :
  lower a = lower b -> title a = title b.
Proof.
  intros H. unfold title.
  by rewrite <- (title_from_lower false a), <- (title_from_lower false b), H.
Qed.

(** ** Lists in step *)

Lemma Forall2_filter_map {A B C : Type} (R : A -> B -> Prop)
    (p : A -> bool) (q : B -> bool) (f : A -> C) (g : B -> C)
    (l : list A) (k : list B) :
  (forall x y, R x y -> p x = q y /\ f x = g y) ->
  Forall2 R l k ->
  map f (List.filter p l) = map g (List.filter q k).
Proof.
  intros HR. induction 1 as [|x y l k Hxy _ IH]; [done|].
  destruct (HR x y Hxy) as [Hp Hf]. cbn [List.filter]. rewrite <- Hp.
  destruct (p x); cbn [map]; by rewrite ?Hf, IH.
Qed.

Lemma Forall2_map_eq {A B C : Type} (R : A -> B -> Prop)
    (f : A -> C) (g : B -> C) (l : list A) (k : list B) :
  (forall x y, R x y -> f x = g y) ->
  Forall2 R l k -> map f l = map g k.
Proof.
  intros HR. induction 1 as [|x y l k Hxy _ IH]; [done|].
  cbn [map]. by rewrite (HR x y Hxy), IH.
Qed.

Lemma Sorted_of_map {A : Type} (key : A -> string) (l : list A) :
  Sorted str_le (map key l) -> Sorted (key_le key) l.
Proof.
  induction l as [|x r IH]; [constructor|].
  cbn [map]. intros H. apply Sorted_inv in H as [Hr Hx].
  constructor; [by apply IH|].
  destruct r; constructor. by inversion Hx.
Qed.

Lemma key_le_trans {A : Type} (key : A -> string) :
  Transitive (key_le key).
Proof. intros a b c. apply str_le_trans. Qed.

Lemma StronglySorted_list_filter {A : Type} (R : relation A) (p : A -> bool)
    (l : list A) :
  StronglySorted R l -> StronglySorted R (List.filter p l).
Proof.
  induction 1 as [|x r Hr IH Hx]; [constructor|].
  cbn [List.filter]. destruct (p x); [|done].
  constructor; [done|]. apply Forall_forall. intros y Hy.
  apply list_elem_of_In, filter_In in Hy as [Hy _].
  rewrite Forall_forall in Hx. by apply Hx, list_elem_of_In.
Qed.

Section Collection.
Variable get_docstring_and_rest :
  string -> option (string * option string * string * Z).

Local Abbreviation populated := (populate_examples get_docstring_and_rest).
Local Abbreviation populate1 := (populate get_docstring_and_rest).

(** What [populate] copies from the entry and from the file. *)
Lemma populate_fields (gallery_ref : string) (code_below : bool) (e : Entry)
    (ex : Example) :
  populate1 gallery_ref code_below e = Some ex ->
  exists doc cat src ln,
    get_docstring_and_rest (entry_filename e) = Some (doc, cat, src, ln)
    /\ ex = mkExample (entry_name e) (entry_filename e) doc
              (title (default "general" cat)) src ln (entry_parameters e)
              gallery_ref code_below None None.
Proof.
  unfold populate. intros H.
  destruct (get_docstring_and_rest (entry_filename e))
    as [[[[doc cat] src] ln]|]; [|done].
  injection H as <-. exists doc, cat, src, ln. split; [done|].
  by destruct cat.
Qed.

Lemma populated_in_step (iter_examples : list Entry) (gallery_ref : string)
    (code_below : bool) (examples : list Example) :
  populated iter_examples gallery_ref code_below = Some examples ->
  Forall2 (fun e ex => populate1 gallery_ref code_below e = Some ex)
          (sorted_by entry_name iter_examples) examples.
Proof. unfold populate_examples. apply mapM_Some_1. Qed.

(** X8.  [populate_examples] returns one example per entry, in ascending
    order of name; examples of one name come in the order of their
    entries. *)
Theorem populate_examples_sorted_by_name
    (iter_examples : list Entry) (gallery_ref : string) (code_below : bool)
    (examples : list Example) :
  populated iter_examples gallery_ref code_below = Some examples ->
  StronglySorted (key_le name) examples
  /\ map name examples ≡ₚ map entry_name iter_examples
  /\ length examples = length iter_examples
  /\ (forall n,
        map filename (List.filter (has_key name n) examples)
        = map entry_filename (List.filter (has_key entry_name n) iter_examples)).
Proof.
  intros H. apply populated_in_step in H.
  assert (Hn : map entry_name (sorted_by entry_name iter_examples)
               = map name examples).
  { eapply Forall2_map_eq; [|exact H]. intros e ex He.
    by destruct (populate_fields _ _ _ _ He) as (? & ? & ? & ? & _ & ->). }
  split; [|split; [|split]].
  - apply Sorted_StronglySorted; [apply key_le_trans|].
    apply Sorted_of_map. rewrite <- Hn.
    apply (Sorted_fmap entry_name (key_le entry_name) str_le); [done|].
    apply sorted_by_sorted.
  - rewrite <- Hn. apply fmap_Permutation, sorted_by_perm.
  - rewrite <- (Forall2_length _ _ _ H).
    apply Permutation_length, sorted_by_perm.
  - intros n. rewrite <- (sorted_by_stable entry_name n iter_examples).
    symmetry. eapply Forall2_filter_map; [|exact H]. intros e ex He.
    by destruct (populate_fields _ _ _ _ He) as (? & ? & ? & ? & _ & ->).
Qed.

(** X9.  [populate_examples] raises exactly when the extraction raises for
    the file of some entry; it then returns no example at all. *)
Theorem populate_examples_fails_iff
    (iter_examples : list Entry) (gallery_ref : string) (code_below : bool) :
  populated iter_examples gallery_ref code_below = None
  <-> exists e, e ∈ iter_examples
                /\ get_docstring_and_rest (entry_filename e) = None.
Proof.
  unfold populate_examples. rewrite mapM_None, Exists_exists. split.
  - intros (e & He & Hp). exists e. split.
    + by rewrite <- (sorted_by_perm entry_name iter_examples).
    + unfold populate in Hp.
      by destruct (get_docstring_and_rest (entry_filename e))
        as [[[[doc cat] src] ln]|].
  - intros (e & He & Hg). exists e. split.
    + by rewrite (sorted_by_perm entry_name iter_examples).
    + unfold populate. by rewrite Hg.
Qed.

(** X10.  For categories written in ASCII: the category of an example is
    in title case already, and it depends on the category its file names
    only up to the case of the letters, so that examples whose files name
    "bar charts" and "BAR Charts" get one category. *)
Theorem category_is_title_cased
    (gallery_ref : string) (code_below : bool) (e1 e2 : Entry)
    (ex1 ex2 : Example) (doc1 doc2 c1 c2 src1 src2 : string) (ln1 ln2 : Z) :
  populate1 gallery_ref code_below e1 = Some ex1 ->
  populate1 gallery_ref code_below e2 = Some ex2 ->
  get_docstring_and_rest (entry_filename e1) = Some (doc1, Some c1, src1, ln1) ->
  get_docstring_and_rest (entry_filename e2) = Some (doc2, Some c2, src2, ln2) ->
  ascii_only c1 = true ->
  ascii_only c2 = true ->
  category ex1 = title c1
  /\ ascii_only (category ex1) = true
  /\ title (category ex1) = category ex1
  /\ (lower c1 = lower c2 -> category ex1 = category ex2).
Proof.
  intros H1 H2 G1 G2 A1 A2.
  destruct (populate_fields _ _ _ _ H1) as (? & ? & ? & ? & G1' & ->).
  destruct (populate_fields _ _ _ _ H2) as (? & ? & ? & ? & G2' & ->).
  rewrite G1 in G1'. rewrite G2 in G2'. simplify_eq. cbn [category default].
  split; [done|]. split; [by apply title_ascii_only|].
  split; [apply title_from_idem|apply title_case_insensitive].
Qed.

(** X11.  In the gallery index every category has at least one example,
    and the examples under a category are in ascending order of name. *)
Theorem groups_in_name_order
    (iter_examples : list Entry) (gallery_ref : string) (code_below : bool)
    (examples : list Example) (k : string) (g : list Example) :
  populated iter_examples gallery_ref code_below = Some examples ->
  (k, g) ∈ gallery_groups examples ->
  g <> [] /\ StronglySorted (key_le name) g.
Proof.
  intros H Hg. unfold gallery_groups in Hg.
  apply groupby_group in Hg as [Hne ->]. split; [done|].
  apply StronglySorted_list_filter.
  apply populated_in_step in H.
  assert (Hn : map entry_name (sorted_by entry_name iter_examples)
               = map name examples).
  { eapply Forall2_map_eq; [|exact H]. intros e ex He.
    by destruct (populate_fields _ _ _ _ He) as (? & ? & ? & ? & _ & ->). }
  apply Sorted_StronglySorted; [apply key_le_trans|].
  apply Sorted_of_map. rewrite <- Hn.
  apply (Sorted_fmap entry_name (key_le entry_name) str_le); [done|].
  apply sorted_by_sorted.
Qed.

End Collection.

(** ** The pages *)





(** ** main *)

Lemma write_file_cases (p : string) (c : content) (s : state) :
  ((p ∉ dirs s)
   /\ raised (write_file p c s) = None
   /\ files (final (write_file p c s)) = <[p := c]> (files s)
   /\ dirs (final (write_file p c s)) = dirs s)
  \/ (p ∈ dirs s
      /\ raised (write_file p c s) = Some IsADirectoryError
      /\ final (write_file p c s) = s).
Proof.
  unfold write_file. destruct (bool_decide (p ∈ dirs s)) eqn:E.
  - right. by apply bool_decide_eq_true_1 in E.
  - left. by apply bool_decide_eq_false_1 in E.
Qed.

Section MainFacts.
Context {chart : Type}.
Variable exec_chart : string -> option chart.
Variable savechart : chart -> string -> option string.
Variable create_thumbnail : content -> string -> kwargs -> option string.
Variable get_docstring_and_rest :
  string -> option (string * option string * string * Z).
Variable iter_examples : list Entry.
Variable render_gallery :
  string -> list (string * list Example) -> string -> string -> string.
Variable render_example : Example -> string.

Local Abbreviation run := (save_example_pngs exec_chart savechart create_thumbnail).
Local Abbreviation page := (write_page render_example).
Local Abbreviation gallery :=
  (build_gallery exec_chart savechart create_thumbnail
     render_gallery render_example).
Local Abbreviation main_of :=
  (main exec_chart savechart create_thumbnail get_docstring_and_rest
     iter_examples render_gallery render_example).
Local Abbreviation text_of := (index_text render_gallery).

(** The pages written by a loop that reaches its end. *)
Lemma write_pages_finished (d : string)
    (l : list (option Example * Example * option Example)) (s : state) :
  raised (for_each (page d) l s) = None ->
  NoDup (map (fun p => fst (example_page d p)) l) ->
  let s' := final (for_each (page d) l s) in
  (forall p, p ∈ l ->
             files s' !! fst (example_page d p)
             = Some (Blob (render_example (snd (example_page d p)))))
  /\ (forall q, q ∉ map (fun p => fst (example_page d p)) l ->
                files s' !! q = files s !! q).
Proof.
  revert s. induction l as [|p l IH]; intros s H Hnd.
  - split; [by intros p Hp%elem_of_nil|done].
  - apply for_each_cons_finished in H as (H1 & H2 & _ & Hf).
    cbn zeta. rewrite Hf. cbn [map] in Hnd.
    apply NoDup_cons in Hnd as [Hp Hnd].
    destruct (IH _ H2 Hnd) as [IH1 IH2].
    assert (Hw : files (final (page d p s))
                 = <[fst (example_page d p) :=
                       Blob (render_example (snd (example_page d p)))]>
                     (files s)).
    { unfold write_page in *.
      destruct (write_file_cases (fst (example_page d p))
                  (Blob (render_example (snd (example_page d p)))) s)
        as [(_ & _ & Hw & _)|(_ & Hr & _)]; [done|congruence]. }
    split.
    + intros p' [->|Hp']%elem_of_cons; [|by apply IH1].
      rewrite IH2 by done. by rewrite Hw, lookup_insert_eq.
    + intros q Hq. cbn [map] in Hq. apply not_elem_of_cons in Hq as [Hq1 Hq2].
      rewrite IH2 by done. by rewrite Hw, lookup_insert_ne.
Qed.

(** [main] once the examples are there: the message, then the gallery. *)
Lemma main_unfold (app : App) (examples : list Example) (s0 : state)
    (o : outcome) :
  populate_examples get_docstring_and_rest iter_examples
    (altair_gallery_ref app) true = Some examples ->
  main_of app s0 = Some o ->
  let g := (guard (target_dir_of app) >>
            write_file (index_file_of app) (Blob (text_of app examples)) >>
            run examples (path_join (srcdir app) "_images") true >>
            for_each (page (target_dir_of app)) (prev_this_next examples)) s0 in
  raised o = raised g /\ final o = final g
  /\ trace o = Print "altair-gallery main" :: trace g.
Proof.
  intros Hp Hm. unfold main in Hm. rewrite Hp in Hm. injection Hm as <-.
  rewrite andthen_emit. cbn [raised final trace]. done.
Qed.


(** X14.  When [main] reaches its end and the pages have paths of their
    own, the file of every page holds the text rendered from its dict. *)
Theorem main_writes_pages
    (app : App) (examples : list Example) (s0 : state) (o : outcome) :
  populate_examples get_docstring_and_rest iter_examples
    (altair_gallery_ref app) true = Some examples ->
  main_of app s0 = Some o ->
  raised o = None ->
  NoDup (map fst (example_pages (target_dir_of app) examples)) ->
  forall p, p ∈ example_pages (target_dir_of app) examples ->
            files (final o) !! fst p = Some (Blob (render_example (snd p))).
Proof.
  intros Hp Hm Hr Hnd.
  destruct (main_unfold app examples s0 o Hp Hm) as (Hro & Hfo & _).
  rewrite Hr in Hro. rewrite Hfo. clear Hfo Hm Hr. symmetry in Hro.
  apply andthen_finished in Hro as Hro'. destruct Hro' as [Hg Hro'].
  apply andthen_finished in Hro' as Hro''. destruct Hro'' as [Hw Hro''].
  apply andthen_finished in Hro'' as Hro3. destruct Hro3 as [Hrun Hpages].
  rewrite andthen_ok by done. cbn [final]. rewrite andthen_ok by done.
  cbn [final]. rewrite andthen_ok by done. cbn [final].
  unfold example_pages in Hnd. rewrite map_map in Hnd.
  destruct (write_pages_finished (target_dir_of app)
              (prev_this_next examples) _ Hpages Hnd) as [Hpg _].
  intros p Hin. unfold example_pages in Hin.
  apply list_elem_of_fmap in Hin as (q & -> & Hq). by apply Hpg.
Qed.

End MainFacts.

Example demo_main_finished :
  exists o, DemoMain.main Demo.empty_world = Some o /\ raised o = None.
Proof. eexists. split; [reflexivity|]. vm_compute. reflexivity. Qed.

(** ** The further properties at work *)

Lemma populate_examples_sorted_by_name_witness :
  populate_examples DemoGallery.get_docstring_and_rest
    DemoGallery.iter_examples "example-gallery" true
  = Some DemoGallery.examples
  /\ StronglySorted (key_le name) DemoGallery.examples.
Proof.
  split; [exact demo_populate|].
  exact (proj1 (populate_examples_sorted_by_name
                  DemoGallery.get_docstring_and_rest
                  DemoGallery.iter_examples "example-gallery" true
                  DemoGallery.examples demo_populate)).
Defined.

Lemma category_is_title_cased_witness :
  populate DemoCase.get_docstring_and_rest "g" true DemoCase.a
  = Some DemoCase.example_a
  /\ populate DemoCase.get_docstring_and_rest "g" true DemoCase.b
     = Some DemoCase.example_b
  /\ ascii_only "bar charts" = true
  /\ ascii_only "BAR Charts" = true
  /\ lower "bar charts" = lower "BAR Charts"
  /\ category DemoCase.example_a = title "bar charts"
  /\ title (category DemoCase.example_a) = category DemoCase.example_a
  /\ category DemoCase.example_a = category DemoCase.example_b.
Proof.
  destruct (category_is_title_cased
              DemoCase.get_docstring_and_rest "g" true
              DemoCase.a DemoCase.b DemoCase.example_a DemoCase.example_b
              "A" "B" "bar charts" "BAR Charts" "abc" "xyz" 2%Z 2%Z
              eq_refl eq_refl eq_refl eq_refl eq_refl eq_refl)
    as (Hc & _ & Ht & Hl).
  exact (conj eq_refl (conj eq_refl (conj eq_refl (conj eq_refl
          (conj eq_refl (conj Hc (conj Ht (Hl eq_refl)))))))).
Defined.

Lemma demo_case_populate :
  populate_examples DemoCase.get_docstring_and_rest
    [DemoCase.b; DemoCase.a] "g" true
  = Some [DemoCase.example_a; DemoCase.example_b].
Proof. reflexivity. Qed.

Lemma groups_in_name_order_witness :
  populate_examples DemoCase.get_docstring_and_rest
    [DemoCase.b; DemoCase.a] "g" true
  = Some [DemoCase.example_a; DemoCase.example_b]
  /\ ("Bar Charts", [DemoCase.example_a; DemoCase.example_b])
     ∈ gallery_groups [DemoCase.example_a; DemoCase.example_b]
  /\ StronglySorted (key_le name) [DemoCase.example_a; DemoCase.example_b].
Proof.
  assert (H : ("Bar Charts", [DemoCase.example_a; DemoCase.example_b])
              ∈ gallery_groups [DemoCase.example_a; DemoCase.example_b]).
  { vm_compute. apply list_elem_of_In. cbn. auto. }
  split; [exact demo_case_populate|]. split; [exact H|].
  exact (proj2 (groups_in_name_order
                  DemoCase.get_docstring_and_rest
                  [DemoCase.b; DemoCase.a] "g" true
                  [DemoCase.example_a; DemoCase.example_b] "Bar Charts"
                  [DemoCase.example_a; DemoCase.example_b]
                  demo_case_populate H)).
Defined.


Lemma main_writes_pages_witness :
  exists o,
    DemoMain.main Demo.empty_world = Some o
    /\ raised o = None
    /\ NoDup (map fst (example_pages (target_dir_of DemoMain.app)
                         DemoGallery.examples))
    /\ files (final o) !! "doc/gallery/zoo.rst" = Some (Blob "zoo:pqr").
Proof.
  eexists. split; [reflexivity|].
  match goal with |- raised ?o = _ /\ _ =>
    assert (Hr : raised o = None) by (vm_compute; reflexivity);
    assert (Hnd : NoDup (map fst (example_pages (target_dir_of DemoMain.app)
                                    DemoGallery.examples)))
      by (apply (bool_decide_unpack _); vm_compute; exact I);
    pose proof (main_writes_pages
                  Demo.exec_chart Demo.savechart Demo.create_thumbnail
                  DemoGallery.get_docstring_and_rest DemoGallery.iter_examples
                  DemoMain.render_gallery DemoMain.render_example
                  DemoMain.app DemoGallery.examples Demo.empty_world
                  o demo_populate eq_refl Hr Hnd
                  (example_page "doc/gallery"
                     (Some DemoGallery.bar_chart, DemoGallery.zoo, None)))
      as Hpage
  end.
  split; [exact Hr|]. split; [exact Hnd|].
  apply Hpage. apply (list_elem_of_lookup_2 _ 2%nat). reflexivity.
Defined.
